(** * Shallow embedding of threeML/bayesian/sampler_base.py

    The Python sampler mutates the parameter objects of the likelihood model
    and signals failures with exceptions.  We model this with an explicit
    state (the free parameters with their current values, plus the log of
    emitted warnings) threaded through a small state-and-exception monad.
    Python floats are modelled by real numbers extended with the IEEE
    special values [inf], [-inf] and [nan]. *)

From Stdlib Require Import ZArith Reals Lra Lia List String Bool Arith.
From Stdlib Require Import Sorting.Permutation Sorting.Sorted.
Import ListNotations.
Open Scope string_scope.

(** ** Python values and exceptions *)

(** Python exceptions that can reach the code paths modelled here. *)
Inductive exn :=
| ModelAssertionViolation
| AssertionError (msg : string)
| RuntimeError (msg : string)
| AttributeError
| KeyError
| IndexError
| ValueError
| OtherError (tag : nat).

Inductive res (A : Type) :=
| Ret (a : A)
| Raise (e : exn).
Arguments Ret {A} a.
Arguments Raise {A} e.

(** A Python float: a real number or one of the special values. *)
Inductive fl :=
| Fin (r : R)
| PInf
| NInf
| NaN.

(** IEEE addition (overflow of finite sums is not modelled). *)
Definition fl_add (x y : fl) : fl :=
  match x, y with
  | NaN, _ | _, NaN => NaN
  | PInf, NInf | NInf, PInf => NaN
  | PInf, _ | _, PInf => PInf
  | NInf, _ | _, NInf => NInf
  | Fin a, Fin b => Fin (a + b)
  end.

(** [np.isfinite] *)
Definition isfinite (x : fl) : bool :=
  match x with Fin _ => true | _ => false end.

(** [nb_sum]: sequential sum of a float array starting from 0. *)
Definition nb_sum (xs : list fl) : fl := fold_left fl_add xs (Fin 0).

(** [math.log]: raises [ValueError] outside the domain (x <= 0). *)
Definition math_log (x : R) : res R :=
  if Rlt_dec 0 x then Ret (ln x) else Raise ValueError.

(** ** Parameters and the mutable model state *)

(** An astromodels free parameter: its name, its prior density and, when
    the prior supports it, the inverse-CDF transform [from_unit_cube]
    ([None] when the attribute is missing). *)
Record FreeParameter := mkParameter {
  name : string;
  prior : R -> R;
  from_unit_cube : option (R -> R)
}.

(** The mutable state: the free parameters of the model in their
    (ordered-dict) order with their current [value], and the warnings
    emitted through the logger, each a list of name/value pairs. *)
Record State := mkState {
  free_parameters : list (FreeParameter * R);
  warnings : list (list (string * R))
}.

Definition values (st : State) : list R := map snd (free_parameters st).

(** [parameter.value = x] for the [i]-th free parameter. *)
Fixpoint set_nth_value (i : nat) (x : R) (ps : list (FreeParameter * R))
  : list (FreeParameter * R) :=
  match ps, i with
  | [], _ => []
  | (p, _) :: ps', O => (p, x) :: ps'
  | pv :: ps', S i' => pv :: set_nth_value i' x ps'
  end.

Definition set_value (i : nat) (x : R) (st : State) : State :=
  mkState (set_nth_value i x (free_parameters st)) (warnings st).

(** ** The state-and-exception monad

    An exception leaves the state as it was mutated up to the raise. *)
Definition M (A : Type) := State -> State * res A.

Definition mret {A} (a : A) : M A := fun st => (st, Ret a).
Definition mraise {A} (e : exn) : M A := fun st => (st, Raise e).
Definition mbind {A B} (m : M A) (k : A -> M B) : M B :=
  fun st => match m st with
            | (st', Ret a) => k a st'
            | (st', Raise e) => (st', Raise e)
            end.
Definition mlift {A} (r : res A) : M A :=
  fun st => (st, r).
Definition mget : M State := fun st => (st, Ret st).
Definition mmodify (f : State -> State) : M unit :=
  fun st => (f st, Ret tt).

Notation "x <- m ;; k" := (mbind m (fun x => k))
  (at level 61, m at next level, right associativity).
Notation "m ;;; k" := (mbind m (fun _ => k))
  (at level 61, right associativity).

(** Python list indexing [xs[i]] for a non-negative [i]. *)
Definition py_index {A} (xs : list A) (i : nat) : res A :=
  match nth_error xs i with
  | Some x => Ret x
  | None => Raise IndexError
  end.

(** Python dict lookup [d[k]] on an association list. *)
Fixpoint py_lookup {A} (k : string) (d : list (string * A)) : res A :=
  match d with
  | [] => Raise KeyError
  | (k', v) :: d' => if String.eqb k k' then Ret v else py_lookup k d'
  end.

(** Handler of [try: ... except ModelAssertionViolation: ...]; every other
    exception propagates ([except: raise]). *)
Definition try_mav {A} (m : M A) (handler : M A) : M A :=
  fun st => match m st with
            | (st', Raise ModelAssertionViolation) => handler st'
            | out => out
            end.

(** Python list item assignment [xs[i] = x] (in range). *)
Fixpoint list_set {A} (xs : list A) (i : nat) (x : A) : list A :=
  match xs, i with
  | [], _ => []
  | _ :: xs', O => x :: xs'
  | y :: xs', S i' => y :: list_set xs' i' x
  end.

(** ** The shared-spectrum plan

    The class [ShareSpectrum] (threeML/utils/spectrum/share_spectrum.py) is
    not part of the sources; its three attributes are read by [_log_like]. *)
Record ShareSpectrumPlan (Edges : Type) := mkPlan {
  base_plugin_key : list string;
  data_ein_edges : list (option Edges);
  data_ebin_connect : list nat
}.
Arguments mkPlan {Edges}.
Arguments base_plugin_key {Edges}.
Arguments data_ein_edges {Edges}.
Arguments data_ebin_connect {Edges}.

Section Sampler.

(** The plugins ("datasets") are external collaborators.  Their
    likelihood reads the current values of the free parameters.
    [get_log_like d pre vals] is [dataset.get_log_like(precalc_fluxes=pre)],
    where [pre = None] is the call without argument. *)
Variables Dataset Flux Edges : Type.
Variable get_log_like : Dataset -> option Flux -> list R -> res fl.
Variable integral_flux : Dataset -> list R -> res Flux.
Variable ein_edges : Dataset -> option Edges.
Variable edges_eqb : Edges -> Edges -> bool.

(** The read-only configuration of a [SamplerBase] instance. *)
Record Sampler := mkSampler {
  data_list : list (string * Dataset);
  share_spectrum : bool;
  share_spectrum_object : option (ShareSpectrumPlan Edges)
}.

(** *** [ShareSpectrum(data_list)] *)

Definition opt_edges_eqb (a b : option Edges) : bool :=
  match a, b with
  | None, None => true
  | Some x, Some y => edges_eqb x y
  | _, _ => false
  end.

Fixpoint find_group (e : option Edges) (gs : list (option Edges)) (g : nat)
  : option nat :=
  match gs with
  | [] => None
  | e' :: gs' => if opt_edges_eqb e e' then Some g else find_group e gs' (S g)
  end.

(** Modelled from the spec: the constructor of [ShareSpectrum] (missing
    from the sources).  "Given the dataset collection, groups datasets by
    identical input-energy-bin-edges, producing, for each group, a
    representative ("base") dataset key and a mapping from every dataset
    index to which precomputed-flux slot it should reuse."  The first
    dataset of a group is its base; [data_ein_edges] holds the shared edges
    or the absence marker [None]. *)
Fixpoint share_spectrum_build (ds : list (string * Dataset))
    (keys : list string) (edges : list (option Edges)) (connect : list nat)
  : ShareSpectrumPlan Edges :=
  match ds with
  | [] => mkPlan keys edges connect
  | (k, d) :: ds' =>
      let e := ein_edges d in
      match find_group e edges 0 with
      | Some g => share_spectrum_build ds' keys edges (connect ++ [g])
      | None =>
          share_spectrum_build ds' (keys ++ [k]) (edges ++ [e])
            (connect ++ [List.length edges])
      end
  end.

Definition ShareSpectrum (ds : list (string * Dataset)) : ShareSpectrumPlan Edges :=
  share_spectrum_build ds [] [] [].

(** *** [SamplerBase._log_like] *)

Definition dataset_get_log_like (d : Dataset) (pre : option Flux) : M fl :=
  st <- mget ;; mlift (get_log_like d pre (values st)).

(** Old way: [log_like_values[i] = dataset.get_log_like()] for every dataset. *)
Fixpoint log_like_plain (ds : list (string * Dataset)) : M (list fl) :=
  match ds with
  | [] => mret []
  | (_, d) :: ds' =>
      v <- dataset_get_log_like d None ;;
      vs <- log_like_plain ds' ;;
      mret (v :: vs)
  end.

(** [self._data_list[base_key]._integral_flux()] *)
Definition dataset_integral_flux (d : Dataset) : M Flux :=
  st <- mget ;; mlift (integral_flux d (values st)).

(** [precalc_fluxes]: one flux per group, from
    [zip(base_plugin_key, data_ein_edges)]. *)
Fixpoint precalc_fluxes (dl : list (string * Dataset))
    (keys : list string) (edges : list (option Edges)) : M (list (option Flux)) :=
  match keys, edges with
  | k :: keys', e :: edges' =>
      match e with
      | None =>
          rest <- precalc_fluxes dl keys' edges' ;;
          mret (None :: rest)
      | Some _ =>
          d <- mlift (py_lookup k dl) ;;
          f <- dataset_integral_flux d ;;
          rest <- precalc_fluxes dl keys' edges' ;;
          mret (Some f :: rest)
      end
  | _, _ => mret []
  end.

(** The loop using the precalculated spectra; [i] is the dataset index. *)
Fixpoint log_like_shared (plan : ShareSpectrumPlan Edges)
    (pre : list (option Flux)) (ds : list (string * Dataset)) (i : nat)
  : M (list fl) :=
  match ds with
  | [] => mret []
  | (_, d) :: ds' =>
      g <- mlift (py_index (data_ebin_connect plan) i) ;;
      e <- mlift (py_index (data_ein_edges plan) g) ;;
      v <- match e with
           | Some _ =>
               f <- mlift (py_index pre g) ;;
               dataset_get_log_like d f
           | None => dataset_get_log_like d None
           end ;;
      vs <- log_like_shared plan pre ds' (S i) ;;
      mret (v :: vs)
  end.

(** The body of the [try] block of [_log_like]. *)
Definition log_like_values (s : Sampler) : M (list fl) :=
  if share_spectrum s then
    match share_spectrum_object s with
    | None => mraise AttributeError
    | Some plan =>
        pre <- precalc_fluxes (data_list s) (base_plugin_key plan)
                 (data_ein_edges plan) ;;
        log_like_shared plan pre (data_list s) 0
    end
  else log_like_plain (data_list s).

(** The warning [f"{key}: {value}"] for every free parameter. *)
Definition param_report (st : State) : list (string * R) :=
  map (fun pv => (name (fst pv), snd pv)) (free_parameters st).

Definition warn_infinite : M unit :=
  mmodify (fun st => mkState (free_parameters st)
                             (warnings st ++ [param_report st])).

Definition _log_like (s : Sampler) (trial_values : list R) : M fl :=
  r <- try_mav (vs <- log_like_values s ;; mret (Some vs)) (mret None) ;;
  match r with
  | None => mret NInf
  | Some vs =>
      let log_like := nb_sum vs in
      if negb (isfinite log_like) then
        warn_infinite ;;; mret NInf
      else mret log_like
  end.

(** *** [SamplerBase.get_posterior] *)

Definition free_params_mismatch_msg : string :=
  "Something is wrong. Number of free parameters" ++ String (Ascii.ascii_of_nat 10) ""
  ++ "do not match the number of trial values.".

(** The loop over the free parameters: [None] is the early
    [return -np.inf], [Some log_prior] the accumulated log-prior. *)
Fixpoint posterior_loop (ps : list (FreeParameter * R)) (trial_values : list R)
    (i : nat) (log_prior : R) : M (option R) :=
  match ps with
  | [] => mret (Some log_prior)
  | (parameter, _) :: ps' =>
      x <- mlift (py_index trial_values i) ;;
      let prior_value := prior parameter x in
      if Req_dec_T prior_value 0 then mret None
      else
        mmodify (set_value i x) ;;;
        l <- mlift (math_log prior_value) ;;
        posterior_loop ps' trial_values (S i) (log_prior + l)
  end.

Definition get_posterior (s : Sampler) (trial_values : list R) : M fl :=
  st <- mget ;;
  if negb (Nat.eqb (List.length (free_parameters st)) (List.length trial_values)) then
    mraise (AssertionError free_params_mismatch_msg)
  else
    r <- posterior_loop (free_parameters st) trial_values 0 0 ;;
    match r with
    | None => mret NInf
    | Some log_prior =>
        log_like <- _log_like s trial_values ;;
        mret (fl_add log_like (Fin log_prior))
    end.

(** *** [UnitCubeSampler._construct_unitcube_posterior] *)

(** [for i, parameter in enumerate(...): parameter.value = trial_values[i]] *)
Fixpoint assign_loop (ps : list (FreeParameter * R)) (trial_values : list R)
    (i : nat) : M unit :=
  match ps with
  | [] => mret tt
  | _ :: ps' =>
      x <- mlift (py_index trial_values i) ;;
      mmodify (set_value i x) ;;;
      assign_loop ps' trial_values (S i)
  end.

(** The [loglike] closure. *)
Definition loglike (s : Sampler) (trial_values : list R) : M fl :=
  st <- mget ;;
  assign_loop (free_parameters st) trial_values 0 ;;;
  _log_like s trial_values.

Definition unitcube_error_msg (parameter_name : string) : string :=
  "The prior you are trying to use for parameter " ++ parameter_name
  ++ " is not compatible with sampling from a unitcube".

(** The loop of both [prior] closures, working on the list [params]:
    the list as mutated so far and the exception raised, if any. *)
Fixpoint transform_loop (ps : list FreeParameter) (i : nat) (params : list R)
  : list R * option exn :=
  match ps with
  | [] => (params, None)
  | parameter :: ps' =>
      match from_unit_cube parameter with
      | None => (params, Some (RuntimeError (unitcube_error_msg (name parameter))))
      | Some f =>
          match nth_error params i with
          | None => (params, Some IndexError)
          | Some x => transform_loop ps' (S i) (list_set params i (f x))
          end
      end
  end.

(** The two shapes of the [prior] closure: with [return_copy] it returns a
    transformed copy of the cube; otherwise it transforms [params] in
    place (we return the mutated list) and returns [None]. *)
Inductive PriorFn :=
| PriorCopy (prior : list R -> res (list R))
| PriorInPlace (prior : list R -> list R * res unit).

Definition prior_copy (ps : list FreeParameter) (cube : list R) : res (list R) :=
  match transform_loop ps 0 cube with
  | (params, None) => Ret params
  | (_, Some e) => Raise e
  end.

Definition prior_in_place (ps : list FreeParameter) (params : list R)
  : list R * res unit :=
  match transform_loop ps 0 params with
  | (params', None) => (params', Ret tt)
  | (params', Some e) => (params', Raise e)
  end.

Definition _construct_unitcube_posterior (s : Sampler) (return_copy : bool)
  : M ((list R -> M fl) * PriorFn) :=
  st <- mget ;;
  let ps := map fst (free_parameters st) in
  if return_copy then mret (loglike s, PriorCopy (prior_copy ps))
  else
    let n_dim := List.length ps in
    match snd (prior_in_place ps (repeat (1/2)%R n_dim)) with
    | Raise e => mraise e
    | Ret _ => mret (loglike s, PriorInPlace (prior_in_place ps))
    end.

End Sampler.

Arguments mkSampler {Dataset Edges}.
Arguments data_list {Dataset Edges}.
Arguments share_spectrum {Dataset Edges}.
Arguments share_spectrum_object {Dataset Edges}.
Arguments ShareSpectrum {Dataset Edges}.
Arguments share_spectrum_build {Dataset Edges}.
Arguments find_group {Edges}.
Arguments opt_edges_eqb {Edges}.
Arguments dataset_get_log_like {Dataset Flux}.
Arguments log_like_plain {Dataset Flux}.
Arguments dataset_integral_flux {Dataset Flux}.
Arguments precalc_fluxes {Dataset Flux Edges}.
Arguments log_like_shared {Dataset Flux Edges}.
Arguments log_like_values {Dataset Flux Edges}.
Arguments _log_like {Dataset Flux Edges}.
Arguments get_posterior {Dataset Flux Edges}.
Arguments loglike {Dataset Flux Edges}.
Arguments _construct_unitcube_posterior {Dataset Flux Edges}.

(** ** Point estimates: [arg_median], [argmax] and the restore steps *)

Section PointEstimates.

(** The elements of the log-probability vector, compared with numpy's
    [<=]; [a == v] is [a <= v and v <= a] (floats other than [nan]). *)
Variable A : Type.
Variable leb : A -> A -> bool.

Definition feq (x y : A) : bool := leb x y && leb y x.
Definition flt (x y : A) : bool := negb (leb y x).

Fixpoint insert (x : A) (l : list A) : list A :=
  match l with
  | [] => [x]
  | y :: l' => if leb x y then x :: y :: l' else y :: insert x l'
  end.

Fixpoint sort (l : list A) : list A :=
  match l with
  | [] => []
  | x :: l' => insert x (sort l')
  end.

(** [np.partition(a, k)[k]]: the [k]-th order statistic; a negative [k]
    counts from the end and an out-of-range [k] raises [ValueError]. *)
Definition np_partition_kth (a : list A) (k : Z) : res A :=
  let k' := if (k <? 0)%Z then (k + Z.of_nat (List.length a))%Z else k in
  if ((k' <? 0)%Z || (Z.of_nat (List.length a) <=? k')%Z)%bool then Raise ValueError
  else py_index (sort a) (Z.to_nat k').

(** [np.median(a)] on an odd-length vector: the middle order statistic
    (numpy takes the mean of the single middle element). *)
Definition np_median_odd (a : list A) : res A :=
  py_index (sort a) (List.length a / 2).

(** [np.where(a == v)[0][0]]: the first index whose element equals [v],
    [IndexError] when there is none. *)
Fixpoint first_index_from (a : list A) (v : A) (i : nat) : res nat :=
  match a with
  | [] => Raise IndexError
  | x :: a' => if feq x v then Ret i else first_index_from a' v (S i)
  end.

Definition np_where_first (a : list A) (v : A) : res nat :=
  first_index_from a v 0.

Definition rbind {X Y} (r : res X) (k : X -> res Y) : res Y :=
  match r with Ret x => k x | Raise e => Raise e end.

Definition arg_median (a : list A) : res nat :=
  if Nat.eqb (List.length a mod 2) 1 then
    rbind (np_median_odd a) (fun m => np_where_first a m)
  else
    let l := (Z.of_nat (List.length a / 2) - 1)%Z in
    let r := Z.of_nat (List.length a / 2) in
    rbind (np_partition_kth a l) (fun left =>
    rbind (np_partition_kth a r) (fun right =>
    rbind (np_where_first a left) (fun i =>
    rbind (np_where_first a right) (fun j =>
    Ret (Nat.min i j))))).

(** [a.argmax()]: the first index of a maximum; [ValueError] on an empty
    vector. *)
Fixpoint argmax_from (a : list A) (best : A) (ibest i : nat) : nat :=
  match a with
  | [] => ibest
  | x :: a' =>
      if flt best x then argmax_from a' x i (S i)
      else argmax_from a' best ibest (S i)
  end.

Definition argmax (a : list A) : res nat :=
  match a with
  | [] => Raise ValueError
  | x :: a' => Ret (argmax_from a' x 0 1)
  end.

(** The loop of [restore_median_fit] / [restore_MAP_fit]:
    [parameter.value = self._samples[parameter_name][idx]]. *)
Fixpoint restore_loop (samples : list (string * list R))
    (parameter_names : list string) (idx i : nat) : M unit :=
  match parameter_names with
  | [] => mret tt
  | parameter_name :: names' =>
      column <- mlift (py_lookup parameter_name samples) ;;
      par <- mlift (py_index column idx) ;;
      mmodify (set_value i par) ;;;
      restore_loop samples names' idx (S i)
  end.

Definition restore_at (samples : list (string * list R)) (idx : res nat) : M unit :=
  i <- mlift idx ;;
  st <- mget ;;
  restore_loop samples (map (fun pv => name (fst pv)) (free_parameters st)) i 0.

Definition restore_median_fit (samples : list (string * list R))
    (log_probability_values : list A) : M unit :=
  restore_at samples (arg_median log_probability_values).

Definition restore_MAP_fit (samples : list (string * list R))
    (log_probability_values : list A) : M unit :=
  restore_at samples (argmax log_probability_values).

End PointEstimates.

Arguments feq {A}.
Arguments flt {A}.
Arguments insert {A}.
Arguments sort {A}.
Arguments np_partition_kth {A}.
Arguments np_median_odd {A}.
Arguments first_index_from {A}.
Arguments np_where_first {A}.
Arguments arg_median {A}.
Arguments argmax_from {A}.
Arguments argmax {A}.
Arguments restore_median_fit {A}.
Arguments restore_MAP_fit {A}.

(** ** [SamplerBase.__init__] *)

Section Init.

Variables Dataset Edges : Type.
Variable ein_edges : Dataset -> option Edges.
Variable edges_eqb : Edges -> Edges -> bool.

(** The Python values stored in the instance's attributes or passed as
    keyword arguments. *)
Inductive pyobj :=
| PNone
| PBool (b : bool)
| PInt (z : Z)
| PStr (s : string)
| PNumpyBool (b : bool)
| PModel
| PDataList (dl : list (string * Dataset))
| PShareSpectrum (plan : ShareSpectrumPlan Edges).

(** [type(x) == bool] *)
Definition type_is_bool (x : pyobj) : bool :=
  match x with PBool _ => true | _ => false end.

(** Python truthiness, on the values that reach [if self._share_spectrum]. *)
Definition truthy (x : pyobj) : bool :=
  match x with
  | PNone => false
  | PBool b | PNumpyBool b => b
  | PInt z => negb (Z.eqb z 0)
  | PStr s => negb (String.eqb s "")
  | _ => true
  end.

(** [kwargs[key]] when [key in kwargs]. *)
Fixpoint kw_lookup (key : string) (kwargs : list (string * pyobj)) : option pyobj :=
  match kwargs with
  | [] => None
  | (k, v) :: kw' => if String.eqb key k then Some v else kw_lookup key kw'
  end.

(** The instance [__dict__]: attributes in the order they are first set. *)
Definition Obj := list (string * pyobj).

Definition getattr (o : Obj) (a : string) : option pyobj := kw_lookup a o.

Definition share_spectrum_msg : string := "share_spectrum must be False or True.".

(** The constructor: the instance as built when it returns or raises, and
    the outcome. *)
Definition sampler_init (data_list : list (string * Dataset))
    (kwargs : list (string * pyobj)) : Obj * res unit :=
  let o : Obj :=
    [("_samples", PNone); ("_raw_samples", PNone); ("_sampler", PNone);
     ("_log_like_values", PNone); ("_log_probability_values", PNone);
     ("_results", PNone); ("_is_setu", PBool false);
     ("_is_registered", PBool false); ("_likelihood_model", PModel);
     ("_data_list", PDataList data_list);
     ("_n_plugins", PInt (Z.of_nat (List.length data_list)))] in
  match kw_lookup "share_spectrum" kwargs with
  | Some v =>
      let o := (o ++ [("_share_spectrum", v)])%list in
      if negb (type_is_bool v) then (o, Raise (AssertionError share_spectrum_msg))
      else if truthy v then
        ((o ++ [("_share_spectrum_object",
                 PShareSpectrum (ShareSpectrum ein_edges edges_eqb data_list))])%list,
         Ret tt)
      else (o, Ret tt)
  | None => ((o ++ [("_share_spectrum", PBool false)])%list, Ret tt)
  end.

End Init.

Arguments PNone {Dataset Edges}.
Arguments PBool {Dataset Edges}.
Arguments PInt {Dataset Edges}.
Arguments PStr {Dataset Edges}.
Arguments PNumpyBool {Dataset Edges}.
Arguments PModel {Dataset Edges}.
Arguments PDataList {Dataset Edges}.
Arguments PShareSpectrum {Dataset Edges}.
Arguments sampler_init {Dataset Edges}.
Arguments getattr {Dataset Edges}.
Arguments kw_lookup {Dataset Edges}.
Arguments type_is_bool {Dataset Edges}.

(** ** [SamplerBase._log_prior] *)

(** The loop of [_log_prior]: the same loop as in [get_posterior], whose
    early [return -np.inf] is the result here. *)
Fixpoint log_prior_loop (ps : list (FreeParameter * R)) (trial_values : list R)
    (i : nat) (log_prior : R) : M fl :=
  match ps with
  | [] => mret (Fin log_prior)
  | (parameter, _) :: ps' =>
      x <- mlift (py_index trial_values i) ;;
      let prior_value := prior parameter x in
      if Req_dec_T prior_value 0 then mret NInf
      else
        mmodify (set_value i x) ;;;
        l <- mlift (math_log prior_value) ;;
        log_prior_loop ps' trial_values (S i) (log_prior + l)
  end.

Definition _log_prior (trial_values : list R) : M fl :=
  st <- mget ;;
  log_prior_loop (free_parameters st) trial_values 0 0.

(** ** [SamplerBase._build_samples_dictionary] *)

(** A two-dimensional numpy array: its rows and its number of columns. *)
Record NdArray2 := mkNdArray2 {
  nd_rows : list (list R);
  nd_ncols : nat
}.

(** numpy's invariant: every row has [nd_ncols] entries. *)
Definition nd_wf (a : NdArray2) : Prop :=
  Forall (fun row => List.length row = nd_ncols a) (nd_rows a).

(** [a[:, i]] for a non-negative [i]. *)
Definition nd_column (a : NdArray2) (i : nat) : res (list R) :=
  if Nat.ltb i (nd_ncols a) then Ret (map (fun row => nth i row 0%R) (nd_rows a))
  else Raise IndexError.

(** [a[idx, :]] for a non-negative [idx]. *)
Definition nd_row (a : NdArray2) (idx : nat) : res (list R) :=
  py_index (nd_rows a) idx.

(** [d[k] = v] on an (ordered) dict. *)
Fixpoint dict_set {V} (k : string) (v : V) (d : list (string * V)) : list (string * V) :=
  match d with
  | [] => [(k, v)]
  | (k', v') :: d' => if String.eqb k k' then (k, v) :: d' else (k', v') :: dict_set k v d'
  end.

(** [self._samples[parameter_name] = self._raw_samples[:, i]] for every
    free parameter: the dict as filled so far and the outcome. *)
Fixpoint build_samples_loop (raw : NdArray2) (parameter_names : list string) (i : nat)
    (samples : list (string * list R)) : list (string * list R) * res unit :=
  match parameter_names with
  | [] => (samples, Ret tt)
  | parameter_name :: names' =>
      match nd_column raw i with
      | Ret column => build_samples_loop raw names' (S i) (dict_set parameter_name column samples)
      | Raise e => (samples, Raise e)
      end
  end.

(** [self._samples = collections.OrderedDict()] and the loop; the method
    only reads the free parameters. *)
Definition _build_samples_dictionary (raw : NdArray2) (st : State)
  : list (string * list R) * res unit :=
  build_samples_loop raw (map (fun pv => name (fst pv)) (free_parameters st)) 0 [].

(** ** The point estimate and the log-posteriors of [SamplerBase._build_results]

    The method goes on with the statistical measures (aic, bic and dic of
    threeML/utils/statistics/stats_tools.py, not part of the sources) and
    builds a [BayesianResults]; the definitions below embed its lines up to
    the loop over the datasets. *)
Section Results.

Variables Dataset Flux Edges : Type.
Variable get_log_like : Dataset -> option Flux -> list R -> res fl.
(** [dataset.name] and [dataset.get_number_of_data_points()] *)
Variable dataset_name : Dataset -> string.
Variable get_number_of_data_points : Dataset -> Z.
Variable A : Type.
Variable leb : A -> A -> bool.

(** [threeML_config.bayesian.use_median_fit] chooses the restore step ... *)
Definition restore_fit (use_median_fit : bool) (samples : list (string * list R))
    (log_probability_values : list A) : M unit :=
  if use_median_fit then restore_median_fit leb samples log_probability_values
  else restore_MAP_fit leb samples log_probability_values.

(** ... and the index of the point estimate. *)
Definition fit_index (use_median_fit : bool) (log_probability_values : list A) : res nat :=
  if use_median_fit then arg_median leb log_probability_values
  else argmax leb log_probability_values.

(** The restore step, then [approximate_MAP_point = self._raw_samples[idx, :]]
    assigned to the free parameters. *)
Definition approximate_MAP_point (use_median_fit : bool) (raw : NdArray2)
    (samples : list (string * list R)) (log_probability_values : list A) : M (list R) :=
  restore_fit use_median_fit samples log_probability_values ;;;
  idx <- mlift (fit_index use_median_fit log_probability_values) ;;
  point <- mlift (nd_row raw idx) ;;
  st <- mget ;;
  assign_loop (free_parameters st) point 0 ;;;
  mret point.

(** The loop over [self._data_list.values()]: [log_posteriors],
    [total_n_data_points] and [total_log_posterior]. *)
Fixpoint log_posterior_loop (ds : list (string * Dataset)) (log_prior : fl)
    (log_posteriors : list (string * fl)) (total_n_data_points : Z)
    (total_log_posterior : fl) : M (list (string * fl) * Z * fl) :=
  match ds with
  | [] => mret (log_posteriors, total_n_data_points, total_log_posterior)
  | (_, dataset) :: ds' =>
      ll <- dataset_get_log_like get_log_like dataset None ;;
      let log_posterior := fl_add ll log_prior in
      log_posterior_loop ds' log_prior
        (dict_set (dataset_name dataset) log_posterior log_posteriors)
        (total_n_data_points + get_number_of_data_points dataset)
        (fl_add total_log_posterior log_posterior)
  end.

Definition build_results_log_posteriors (use_median_fit : bool) (raw : NdArray2)
    (samples : list (string * list R)) (log_probability_values : list A)
    (s : Sampler Dataset Edges) : M (list (string * fl) * Z * fl) :=
  point <- approximate_MAP_point use_median_fit raw samples log_probability_values ;;
  log_prior <- _log_prior point ;;
  log_posterior_loop (data_list s) log_prior [] 0 (Fin 0).

End Results.

Arguments restore_fit {A}.
Arguments fit_index {A}.
Arguments approximate_MAP_point {A}.
Arguments log_posterior_loop {Dataset Flux}.
Arguments build_results_log_posteriors {Dataset Flux Edges} get_log_like dataset_name
  get_number_of_data_points {A}.

(** ** Auxiliary definitions for the statements *)

(** The log-prior as accumulated by [get_posterior]:
    [log_prior += ln(prior_i(trial_i))] from [lp]. *)
Definition sum_log_prior (lp : R) (ps : list (FreeParameter * R)) (t : list R) : R :=
  fold_left (fun acc pvx => (acc + ln (prior (fst (fst pvx)) (snd pvx)))%R)
    (combine ps t) lp.

(** A computation that leaves the state unchanged and whose outcome only
    depends on the current parameter values. *)
Definition pure_reader {A} (m : M A) : Prop :=
  forall st, fst (m st) = st /\
    forall st', values st' = values st -> snd (m st') = snd (m st).

(** What the likelihood code can observe of the state: the names and
    values of the free parameters and the warnings (not the priors). *)
Definition view (st : State) : list (string * R) * list (list (string * R)) :=
  (param_report st, warnings st).

(** [m] is the [k]-th order statistic (from 0) of [a]: at most [k]
    elements of [a] are below [m] and more than [k] are at most [m]. *)
Definition order_statistic {A} (leb : A -> A -> bool) (k : nat) (m : A) (a : list A) : Prop :=
  List.length (filter (fun x => flt leb x m) a) <= k /\
  k < List.length (filter (fun x => leb x m) a).

(** [i] is the first index of [a] whose element equals [m]. *)
Definition first_occurrence {A} (leb : A -> A -> bool) (i : nat) (m : A) (a : list A) : Prop :=
  exists x, nth_error a i = Some x /\ feq leb x m = true /\
    forall j y, j < i -> nth_error a j = Some y -> feq leb y m = false.

(** A small concrete model: two free parameters [a] and [b] with uniform
    priors on [0, 10], both at value 5, and two datasets whose
    log-likelihood is the constant -10. *)
Definition uniform_0_10 (x : R) : R :=
  if Rle_dec 0 x then if Rle_dec x 10 then (1/10)%R else 0%R else 0%R.

Definition par_a : FreeParameter := mkParameter "a" uniform_0_10 None.
Definition par_b : FreeParameter := mkParameter "b" uniform_0_10 None.
Definition ex_state : State := mkState [(par_a, 5%R); (par_b, 5%R)] [].

(** A parameter whose prior can map the unit cube: [u |-> 10 u]. *)
Definition par_c : FreeParameter := mkParameter "c" uniform_0_10 (Some (fun u => 10 * u)%R).
Definition mixed_state : State := mkState [(par_c, 1%R); (par_a, 5%R)] [].

(** Three posterior draws of the two parameters of [ex_state], and the
    log-probability of each draw. *)
Definition ex_raw : NdArray2 := mkNdArray2 [[1; 2]; [3; 4]; [5; 6]]%R 2.
Definition ex_log_probability : list Z := [-3; -1; -2]%Z.

(** A (broken) prior density that is negative below 5. *)
Definition par_d : FreeParameter := mkParameter "d" (fun x => x - 5)%R None.

Definition flat_log_like (d : unit) (pre : option unit) (vals : list R) : res fl :=
  Ret (Fin (-10)).
Definition unit_flux (d : unit) (vals : list R) : res unit := Ret tt.
Definition ex_sampler : Sampler unit unit :=
  mkSampler [("d1", tt); ("d2", tt)] false None.

(** Three detectors: [n1] and [n2] share their input energy bins (edge
    set 0), [lle] has none.  A detector's log-likelihood is the flux it is
    given, or the flux 5 it computes itself. *)
Definition det_edges (d : nat) : option nat := if Nat.eqb d 3 then None else Some 0.
Definition det_log_like (d : nat) (pre : option R) (vals : list R) : res fl :=
  match pre with
  | Some f => Ret (Fin f)
  | None => Ret (Fin 5)
  end.
Definition det_flux (d : nat) (vals : list R) : res R := Ret 5%R.
Definition det_list : list (string * nat) := [("n1", 1); ("n2", 2); ("lle", 3)].

(** * Properties *)

Close Scope string_scope.
Open Scope list_scope.

(** ** General facts about the model *)

Lemma set_nth_value_app (l1 : list (FreeParameter * R)) p v x l2 :
  set_nth_value (List.length l1) x (l1 ++ (p, v) :: l2) = l1 ++ (p, x) :: l2.
Proof. induction l1 as [| [q w] l1 IH]; simpl; [reflexivity | now rewrite IH]. Qed.

Lemma skipn_cons_nth_error {X} (t : list X) i x rest :
  skipn i t = x :: rest -> nth_error t i = Some x /\ skipn (S i) t = rest.
Proof.
  revert t; induction i as [| i IH]; intros [| y t] H; simpl in *;
    try discriminate.
  - now injection H as -> ->.
  - now apply IH.
Qed.

Lemma skipn_nil_length {X} (t : list X) i :
  skipn i t = [] -> List.length t <= i.
Proof.
  revert t; induction i as [| i IH]; intros [| y t] H; simpl in *;
    try discriminate; try lia.
  apply IH in H; lia.
Qed.

Section PosteriorTheorems.

Variables Dataset Flux Edges : Type.
Variable gl : Dataset -> option Flux -> list R -> res fl.
Variable ifl : Dataset -> list R -> res Flux.

Lemma posterior_loop_positive ps :
  forall P1 w t i lp,
    List.length P1 = i ->
    Forall2 (fun pv x => (0 < prior (fst pv) x)%R) ps (skipn i t) ->
    posterior_loop ps t i lp (mkState (P1 ++ ps) w) =
      (mkState (P1 ++ combine (map fst ps) (skipn i t)) w,
       Ret (Some (sum_log_prior lp ps (skipn i t)))).
Proof.
  induction ps as [| [p v] ps IH]; intros P1 w t i lp HP1 Hpos.
  - inversion Hpos; subst. simpl. reflexivity.
  - inversion Hpos as [| pv x ps0 rest Hx Hrest Heq1 Heq2]; subst.
    symmetry in Heq2. apply skipn_cons_nth_error in Heq2 as [Hnth Hskip].
    simpl in Hx.
    cbn [posterior_loop]. unfold mbind, mlift, py_index, mret, mmodify.
    rewrite Hnth.
    destruct (Req_dec_T (prior p x) 0) as [E | _]; [lra |].
    unfold set_value; simpl.
    rewrite set_nth_value_app.
    unfold math_log. destruct (Rlt_dec 0 (prior p x)) as [_ | C]; [| lra].
    replace (P1 ++ (p, x) :: ps) with ((P1 ++ [(p, x)]) ++ ps)
      by (rewrite <- app_assoc; reflexivity).
    rewrite IH with (i := S (List.length P1)); rewrite ?Hskip; auto.
    + rewrite <- app_assoc. reflexivity.
    + rewrite length_app; simpl; lia.
Qed.

Lemma posterior_loop_zero ps :
  forall P1 w t i lp k,
    List.length P1 = i ->
    k < List.length ps ->
    List.length t = i + List.length ps ->
    (forall pv x, nth_error ps k = Some pv -> nth_error t (i + k) = Some x ->
       prior (fst pv) x = 0%R) ->
    (forall j pv x, j < k -> nth_error ps j = Some pv ->
       nth_error t (i + j) = Some x -> (0 < prior (fst pv) x)%R) ->
    posterior_loop ps t i lp (mkState (P1 ++ ps) w) =
      (mkState (P1 ++ combine (map fst (firstn k ps)) (firstn k (skipn i t))
                ++ skipn k ps) w,
       Ret None).
Proof.
  induction ps as [| [p v] ps IH]; intros P1 w t i lp k HP1 Hk Ht Hz Hpos;
    [simpl in Hk; lia |].
  subst i.
  destruct (nth_error t (List.length P1)) as [x |] eqn:Hx;
    [| apply nth_error_None in Hx; simpl in Ht; lia].
  cbn [posterior_loop]. unfold mbind, mlift, py_index, mret, mmodify.
  rewrite Hx.
  destruct k as [| k].
  - rewrite Nat.add_0_r in Hz.
    specialize (Hz (p, v) x eq_refl Hx). simpl in Hz.
    destruct (Req_dec_T (prior p x) 0) as [_ | C]; [| contradiction].
    reflexivity.
  - assert (Hp : (0 < prior p x)%R).
    { apply (Hpos 0 (p, v) x); [lia | reflexivity | now rewrite Nat.add_0_r]. }
    destruct (Req_dec_T (prior p x) 0) as [E | _]; [lra |].
    unfold set_value; simpl. rewrite set_nth_value_app.
    unfold math_log. destruct (Rlt_dec 0 (prior p x)) as [_ | C]; [| lra].
    replace (P1 ++ (p, x) :: ps) with ((P1 ++ [(p, x)]) ++ ps)
      by (rewrite <- app_assoc; reflexivity).
    rewrite IH with (i := S (List.length P1)) (k := k).
    + assert (Hs : skipn (List.length P1) t = x :: skipn (S (List.length P1)) t).
      { clear -Hx. revert t Hx. induction P1 as [| q P1 IHP]; intros [| y t] H;
          simpl in *; try discriminate.
        - now injection H as ->.
        - now apply IHP. }
      rewrite Hs. simpl. rewrite <- app_assoc. reflexivity.
    + rewrite length_app; simpl; lia.
    + simpl in Hk; lia.
    + simpl in Ht; lia.
    + intros pv y H1 H2. apply (Hz pv y); [exact H1 |].
      replace (List.length P1 + S k) with (S (List.length P1) + k) by lia.
      exact H2.
    + intros j pv y Hj H1 H2. apply (Hpos (S j) pv y); [lia | exact H1 |].
      replace (List.length P1 + S j) with (S (List.length P1) + j) by lia.
      exact H2.
Qed.

Lemma log_like_plain_state ds st :
  fst (log_like_plain gl ds st) = st.
Proof.
  induction ds as [| [k d] ds IH]; [reflexivity |].
  cbn [log_like_plain]. unfold dataset_get_log_like, mbind, mget, mlift, mret.
  cbn beta iota.
  destruct (gl d None (values st)) as [v | e]; [| reflexivity].
  destruct (log_like_plain gl ds st) as [st' [vs | e]] eqn:E; simpl in *;
    subst; reflexivity.
Qed.

End PosteriorTheorems.

Lemma first_zero_exists (Pd : nat -> Prop) :
  (forall n, Pd n \/ ~ Pd n) ->
  (exists n, Pd n) -> exists n, Pd n /\ forall m, m < n -> ~ Pd m.
Proof.
  intros Hdec [n Hn].
  assert (Hb : forall n, (exists m, m < n /\ Pd m) \/ (forall m, m < n -> ~ Pd m)).
  { induction n0 as [| n0 IH].
    - right; intros; lia.
    - destruct IH as [[m [Hm HPm]] | Hnone].
      + left; exists m; split; [lia | exact HPm].
      + destruct (Hdec n0) as [HP | HnP].
        * left; exists n0; split; [lia | exact HP].
        * right; intros m Hm. destruct (Nat.eq_dec m n0) as [-> | Hne];
            [exact HnP | apply Hnone; lia]. }
  induction n as [n IH] using (well_founded_induction lt_wf).
  destruct (Hb n) as [[m [Hm HPm]] | Hnone].
  - exact (IH m Hm HPm).
  - exists n; split; assumption.
Qed.

Section PosteriorClaims.

Variables Dataset Flux Edges : Type.
Variable gl : Dataset -> option Flux -> list R -> res fl.
Variable ifl : Dataset -> list R -> res Flux.

(** Claim C5: a trial vector whose length differs from the number of free
    parameters makes [get_posterior] raise the configuration-mismatch
    [AssertionError]; no prior is evaluated and no parameter value changes
    (the returned state is the initial one). *)
Theorem get_posterior_length_mismatch (s : Sampler Dataset Edges) (st : State)
    (t : list R) :
  List.length (free_parameters st) <> List.length t ->
  get_posterior gl ifl s t st = (st, Raise (AssertionError free_params_mismatch_msg)).
Proof.
  intros Hlen. unfold get_posterior, mbind, mget, mraise.
  apply Nat.eqb_neq in Hlen. rewrite Hlen. reflexivity.
Qed.

(** Claim C1: when the trial vector has one entry per free parameter and
    every prior density is strictly positive there, [get_posterior] sets
    every free parameter to its trial value and returns the summed
    per-dataset log-likelihood plus the sum of [ln(prior_i(trial_i))],
    provided no dataset raises and the sum is finite. *)
Theorem get_posterior_accepts (s : Sampler Dataset Edges) (st : State)
    (t : list R) (vs : list fl) (ll : R) :
  List.length (free_parameters st) = List.length t ->
  Forall2 (fun pv x => (0 < prior (fst pv) x)%R) (free_parameters st) t ->
  log_like_values gl ifl s
    (mkState (combine (map fst (free_parameters st)) t) (warnings st))
  = (mkState (combine (map fst (free_parameters st)) t) (warnings st), Ret vs) ->
  nb_sum vs = Fin ll ->
  values (mkState (combine (map fst (free_parameters st)) t) (warnings st)) = t /\
  get_posterior gl ifl s t st =
    (mkState (combine (map fst (free_parameters st)) t) (warnings st),
     Ret (Fin (ll + sum_log_prior 0 (free_parameters st) t))).
Proof.
  intros Hlen Hpos Hvals Hsum. split.
  - unfold values; simpl. clear -Hlen.
    revert t Hlen. induction (free_parameters st) as [| [p v] ps IH];
      intros [| x t] H; simpl in *; try discriminate; [reflexivity |].
    f_equal. apply IH. lia.
  - destruct st as [P w]; simpl in *.
    unfold get_posterior, mbind at 1, mget. cbv beta. cbn [free_parameters].
    apply Nat.eqb_eq in Hlen. rewrite Hlen. cbn [negb].
    unfold mbind at 1.
    pose proof (posterior_loop_positive P [] w t 0 0 eq_refl Hpos) as HL.
    cbn [app skipn] in HL. rewrite HL.
    unfold _log_like, try_mav, mbind, mret. rewrite Hvals.
    rewrite Hsum. reflexivity.
Qed.

(** Claim C2: if some component of a full-length trial vector has prior
    density zero (densities being non-negative), [get_posterior] returns
    [-inf]; the parameters strictly before the first zero-density index
    hold their trial values and that parameter and all later ones keep
    their previous values.  The outcome depends only on the components up
    to the first zero. *)
Theorem get_posterior_rejects (s : Sampler Dataset Edges) (st : State)
    (t : list R) :
  List.length (free_parameters st) = List.length t ->
  (forall j pv x, nth_error (free_parameters st) j = Some pv ->
     nth_error t j = Some x -> (0 <= prior (fst pv) x)%R) ->
  (exists j pv x, nth_error (free_parameters st) j = Some pv /\
     nth_error t j = Some x /\ prior (fst pv) x = 0%R) ->
  exists k,
    k < List.length t /\
    (forall pv x, nth_error (free_parameters st) k = Some pv ->
       nth_error t k = Some x -> prior (fst pv) x = 0%R) /\
    (forall j pv x, j < k -> nth_error (free_parameters st) j = Some pv ->
       nth_error t j = Some x -> prior (fst pv) x <> 0%R) /\
    get_posterior gl ifl s t st =
      (mkState (combine (map fst (firstn k (free_parameters st))) (firstn k t)
                ++ skipn k (free_parameters st)) (warnings st),
       Ret NInf).
Proof.
  intros Hlen Hnn Hex.
  set (P := free_parameters st) in *.
  set (Pd := fun j => exists pv x, nth_error P j = Some pv /\
                        nth_error t j = Some x /\ prior (fst pv) x = 0%R).
  assert (Hdec : forall n, Pd n \/ ~ Pd n).
  { intros n. unfold Pd.
    destruct (nth_error P n) as [pv |] eqn:E1;
      [| right; intros (pv & x & H & _); discriminate].
    destruct (nth_error t n) as [x |] eqn:E2;
      [| right; intros (pv' & x & _ & H & _); discriminate].
    destruct (Req_dec_T (prior (fst pv) x) 0) as [Z | NZ].
    - left; exists pv, x; auto.
    - right; intros (pv' & x' & H1 & H2 & H3).
      injection H1 as <-; injection H2 as <-. contradiction. }
  destruct (first_zero_exists Pd Hdec Hex) as [k [Hk Hmin]].
  destruct Hk as (pvk & xk & Hk1 & Hk2 & Hk3).
  assert (Hkl : k < List.length t).
  { apply nth_error_Some. rewrite Hk2. discriminate. }
  exists k. split; [exact Hkl |]. split.
  { intros pv x H1 H2. rewrite Hk1 in H1; rewrite Hk2 in H2.
    injection H1 as <-; injection H2 as <-. exact Hk3. }
  split.
  { intros j pv x Hj H1 H2 H3. apply (Hmin j Hj). exists pv, x; auto. }
  destruct st as [P0 w]; simpl in P; subst P.
  unfold get_posterior, mbind at 1, mget. cbv beta. cbn [free_parameters].
  apply Nat.eqb_eq in Hlen as Hlen'. rewrite Hlen'. cbn [negb].
  unfold mbind at 1.
  pose proof (posterior_loop_zero P0 [] w t 0 0 k eq_refl) as HZ.
  cbn [app] in HZ. rewrite HZ; clear HZ.
  - reflexivity.
  - lia.
  - lia.
  - intros pv x H1 H2. simpl in H2. rewrite Hk1 in H1; rewrite Hk2 in H2.
    injection H1 as <-; injection H2 as <-. exact Hk3.
  - intros j pv x Hj H1 H2. simpl in H2.
    pose proof (Hnn j pv x H1 H2) as Hge.
    destruct (Req_dec_T (prior (fst pv) x) 0) as [Z | NZ].
    + exfalso. apply (Hmin j Hj). exists pv, x; auto.
    + lra.
Qed.

End PosteriorClaims.

Lemma uniform_0_10_nonneg (x : R) : (0 <= uniform_0_10 x)%R.
Proof. unfold uniform_0_10; repeat destruct Rle_dec; lra. Qed.

Lemma uniform_0_10_5 : uniform_0_10 5 = (1/10)%R.
Proof. unfold uniform_0_10; repeat destruct Rle_dec; lra. Qed.

Lemma uniform_0_10_20 : uniform_0_10 20 = 0%R.
Proof. unfold uniform_0_10; repeat destruct Rle_dec; lra. Qed.

(** The trial vector [5] for two free parameters is refused. *)
Lemma get_posterior_length_mismatch_witness :
  List.length (free_parameters ex_state) <> List.length [5%R] /\
  get_posterior flat_log_like unit_flux ex_sampler [5%R] ex_state =
    (ex_state, Raise (AssertionError free_params_mismatch_msg)).
Proof.
  split; [simpl; lia |].
  apply get_posterior_length_mismatch. simpl; lia.
Defined.

(** The end-to-end scenario of the spec: [get_posterior [5; 5]] is
    [-10 + -10 + ln(1/10) + ln(1/10)]. *)
Lemma get_posterior_accepts_witness :
  List.length (free_parameters ex_state) = List.length [5%R; 5%R] /\
  Forall2 (fun pv x => (0 < prior (fst pv) x)%R) (free_parameters ex_state)
    [5%R; 5%R] /\
  get_posterior flat_log_like unit_flux ex_sampler [5%R; 5%R] ex_state =
    (mkState [(par_a, 5%R); (par_b, 5%R)] [],
     Ret (Fin (0 + -10 + -10 + sum_log_prior 0 (free_parameters ex_state) [5%R; 5%R]))).
Proof.
  assert (Hpos : Forall2 (fun pv x => (0 < prior (fst pv) x)%R)
                   (free_parameters ex_state) [5%R; 5%R]).
  { repeat constructor; simpl; rewrite uniform_0_10_5; lra. }
  split; [reflexivity |]. split; [exact Hpos |].
  exact (proj2 (get_posterior_accepts unit unit unit flat_log_like unit_flux
                  ex_sampler ex_state [5%R; 5%R] [Fin (-10); Fin (-10)]
                  (0 + -10 + -10) eq_refl Hpos eq_refl eq_refl)).
Defined.

(** The trial [5; 20]: the prior of [b] vanishes at 20. *)
Lemma get_posterior_rejects_witness :
  List.length (free_parameters ex_state) = List.length [5%R; 20%R] /\
  (exists k,
    k < List.length [5%R; 20%R] /\
    (forall pv x, nth_error (free_parameters ex_state) k = Some pv ->
       nth_error [5%R; 20%R] k = Some x -> prior (fst pv) x = 0%R) /\
    (forall j pv x, j < k -> nth_error (free_parameters ex_state) j = Some pv ->
       nth_error [5%R; 20%R] j = Some x -> prior (fst pv) x <> 0%R) /\
    get_posterior flat_log_like unit_flux ex_sampler [5%R; 20%R] ex_state =
      (mkState (combine (map fst (firstn k (free_parameters ex_state)))
                  (firstn k [5%R; 20%R])
                ++ skipn k (free_parameters ex_state)) (warnings ex_state),
       Ret NInf)).
Proof.
  split; [reflexivity |].
  apply get_posterior_rejects.
  - reflexivity.
  - intros j pv x H1 _. apply nth_error_In in H1. simpl in H1.
    destruct H1 as [<- | [<- | []]]; apply uniform_0_10_nonneg.
  - exists 1%nat, (par_b, 5%R), 20%R. split; [reflexivity |].
    split; [reflexivity |]. apply uniform_0_10_20.
Defined.

(** ** Computations that only read the parameter values *)

Lemma pure_reader_ret {A} (a : A) : pure_reader (mret a).
Proof. intros st; split; reflexivity. Qed.

Lemma pure_reader_lift {A} (r : res A) : pure_reader (mlift r).
Proof. intros st; split; reflexivity. Qed.

Lemma pure_reader_raise {A} (e : exn) : pure_reader (@mraise A e).
Proof. intros st; split; reflexivity. Qed.

Lemma pure_reader_values {A} (f : list R -> res A) :
  pure_reader (st <- mget ;; mlift (f (values st))).
Proof.
  intros st; split; [reflexivity |].
  intros st' H. unfold mbind, mget, mlift; simpl. now rewrite H.
Qed.

Lemma pure_reader_bind {A B} (m : M A) (k : A -> M B) :
  pure_reader m -> (forall a, pure_reader (k a)) -> pure_reader (mbind m k).
Proof.
  intros Hm Hk st. unfold mbind.
  destruct (Hm st) as [Hst Hv].
  destruct (m st) as [st1 [a | e]] eqn:E; simpl in Hst; subst st1.
  - destruct (Hk a st) as [Hst2 Hv2]. split; [exact Hst2 |].
    intros st' H. specialize (Hv st' H).
    destruct (Hm st') as [Hst' _].
    destruct (m st') as [st1' [a' | e']] eqn:E'; simpl in Hst', Hv; subst st1';
      [| discriminate].
    injection Hv as ->. apply Hv2. exact H.
  - split; [reflexivity |]. intros st' H. specialize (Hv st' H).
    destruct (Hm st') as [Hst' _].
    destruct (m st') as [st1' r'] eqn:E'; simpl in Hst', Hv; subst st1' r'.
    reflexivity.
Qed.

Ltac reader_step :=
  repeat first [ apply pure_reader_values | apply pure_reader_ret
               | apply pure_reader_lift | apply pure_reader_raise
               | apply pure_reader_bind; [| intro] ].

Lemma pure_reader_split {A} (m : M A) st :
  pure_reader m -> m st = (st, snd (m st)).
Proof.
  intros H. destruct (H st) as [H1 _]. destruct (m st) as [st1 r]; simpl in *.
  now subst.
Qed.

Section Readers.

Variables Dataset Flux Edges : Type.
Variable gl : Dataset -> option Flux -> list R -> res fl.
Variable ifl : Dataset -> list R -> res Flux.

Lemma log_like_plain_reader ds : pure_reader (log_like_plain gl ds).
Proof.
  induction ds as [| [k d] ds IH]; cbn [log_like_plain]; reader_step.
  exact IH.
Qed.

Lemma precalc_fluxes_reader (dl : list (string * Dataset)) keys (edges : list (option Edges)) :
  pure_reader (precalc_fluxes ifl dl keys edges).
Proof.
  revert edges; induction keys as [| k keys IH]; intros [| e edges];
    cbn [precalc_fluxes]; try apply pure_reader_ret.
  destruct e; reader_step; apply IH.
Qed.

Lemma log_like_shared_reader (plan : ShareSpectrumPlan Edges) (pre : list (option Flux)) ds :
  forall i, pure_reader (log_like_shared gl plan pre ds i).
Proof.
  induction ds as [| [k d] ds IH]; intros i; cbn [log_like_shared];
    [apply pure_reader_ret |].
  apply pure_reader_bind; [apply pure_reader_lift | intro g].
  apply pure_reader_bind; [apply pure_reader_lift | intros [e |]];
    reader_step; apply IH.
Qed.

Lemma log_like_values_reader (s : Sampler Dataset Edges) :
  pure_reader (log_like_values gl ifl s).
Proof.
  unfold log_like_values.
  destruct (share_spectrum s); [| apply log_like_plain_reader].
  destruct (share_spectrum_object s) as [plan |]; [| apply pure_reader_raise].
  apply pure_reader_bind; [apply precalc_fluxes_reader |].
  intro pre; apply log_like_shared_reader.
Qed.

End Readers.

Lemma values_view st1 st2 : view st1 = view st2 -> values st1 = values st2.
Proof.
  intros H. injection H as H _. unfold values.
  unfold param_report in H.
  apply (f_equal (map snd)) in H. rewrite !map_map in H. exact H.
Qed.

Lemma set_nth_value_view i x (P1 P2 : list (FreeParameter * R)) :
  map (fun pv => (name (fst pv), snd pv)) P1 = map (fun pv => (name (fst pv), snd pv)) P2 ->
  map (fun pv => (name (fst pv), snd pv)) (set_nth_value i x P1) =
  map (fun pv => (name (fst pv), snd pv)) (set_nth_value i x P2).
Proof.
  revert i P2; induction P1 as [| [p v] P1 IH]; intros i [| [q w] P2] H;
    simpl in *; try discriminate; [reflexivity |].
  injection H as Hn Hv HP. destruct i as [| i]; simpl.
  - now rewrite Hn, HP.
  - rewrite Hn, Hv. f_equal. now apply IH.
Qed.

Lemma set_value_view i x st1 st2 :
  view st1 = view st2 -> view (set_value i x st1) = view (set_value i x st2).
Proof.
  unfold view, param_report, set_value; simpl. intros H.
  injection H as HP Hw. rewrite Hw. f_equal. now apply set_nth_value_view.
Qed.

Section LogLikeFacts.

Variables Dataset Flux Edges : Type.
Variable gl : Dataset -> option Flux -> list R -> res fl.
Variable ifl : Dataset -> list R -> res Flux.

Lemma log_like_cases (s : Sampler Dataset Edges) t st :
  _log_like gl ifl s t st =
    match snd (log_like_values gl ifl s st) with
    | Raise ModelAssertionViolation => (st, Ret NInf)
    | Raise e => (st, Raise e)
    | Ret vs =>
        if isfinite (nb_sum vs) then (st, Ret (nb_sum vs))
        else (mkState (free_parameters st) (warnings st ++ [param_report st]), Ret NInf)
    end.
Proof.
  pose proof (pure_reader_split _ st (log_like_values_reader _ _ _ gl ifl s)) as E.
  set (r := snd (log_like_values gl ifl s st)) in *.
  unfold _log_like, try_mav, mbind at 1. unfold mbind at 1. rewrite E.
  destruct r as [vs | []]; try reflexivity.
  unfold mret. cbv beta iota zeta.
  destruct (isfinite (nb_sum vs)); reflexivity.
Qed.

Lemma log_like_view (s : Sampler Dataset Edges) t st1 st2 :
  view st1 = view st2 ->
  snd (_log_like gl ifl s t st1) = snd (_log_like gl ifl s t st2) /\
  view (fst (_log_like gl ifl s t st1)) = view (fst (_log_like gl ifl s t st2)).
Proof.
  intros H. rewrite !log_like_cases.
  destruct (log_like_values_reader _ _ _ gl ifl s st2) as [_ Hv].
  rewrite (Hv st1 (values_view _ _ H)).
  destruct (snd (log_like_values gl ifl s st2)) as [vs | []];
    try (split; [reflexivity | exact H]).
  destruct (isfinite (nb_sum vs)); (split; [reflexivity |]); [exact H |].
  unfold view in *; simpl. injection H as H1 H2. unfold param_report in *.
  simpl. now rewrite H1, H2.
Qed.

Lemma assign_loop_view ps1 ps2 t :
  List.length ps1 = List.length ps2 ->
  forall i st1 st2, view st1 = view st2 ->
  snd (assign_loop ps1 t i st1) = snd (assign_loop ps2 t i st2) /\
  view (fst (assign_loop ps1 t i st1)) = view (fst (assign_loop ps2 t i st2)).
Proof.
  revert ps2; induction ps1 as [| p ps1 IH]; intros [| q ps2] Hl i st1 st2 H;
    simpl in Hl; try discriminate; [split; [reflexivity | exact H] |].
  cbn [assign_loop]. unfold mbind, mlift, mmodify, py_index.
  destruct (nth_error t i) as [x |]; [| split; [reflexivity | exact H]].
  apply IH; [lia |]. now apply set_value_view.
Qed.

Lemma assign_loop_all ps :
  forall P1 w t i,
    List.length P1 = i ->
    i + List.length ps <= List.length t ->
    assign_loop ps t i (mkState (P1 ++ ps) w) =
      (mkState (P1 ++ combine (map fst ps) (skipn i t)) w, Ret tt).
Proof.
  induction ps as [| [p v] ps IH]; intros P1 w t i HP1 Ht.
  - simpl. destruct (skipn i t); reflexivity.
  - subst i. cbn [assign_loop]. unfold mbind, mlift, mmodify, py_index.
    destruct (nth_error t (List.length P1)) as [x |] eqn:Hx;
      [| apply nth_error_None in Hx; simpl in Ht; lia].
    unfold set_value; simpl. rewrite set_nth_value_app.
    replace (P1 ++ (p, x) :: ps) with ((P1 ++ [(p, x)]) ++ ps)
      by (rewrite <- app_assoc; reflexivity).
    rewrite IH with (i := S (List.length P1)).
    + assert (Hs : skipn (List.length P1) t = x :: skipn (S (List.length P1)) t).
      { clear -Hx. revert t Hx. induction P1 as [| q P1 IHP]; intros [| y t] H;
          simpl in *; try discriminate.
        - now injection H as ->.
        - now apply IHP. }
      rewrite Hs. simpl. rewrite <- app_assoc. reflexivity.
    + rewrite length_app; simpl; lia.
    + simpl in Ht; lia.
Qed.

(** Claim C4: [_log_like] returns [-inf] exactly when the per-dataset
    evaluation raises [ModelAssertionViolation] or its sum is not finite;
    in the latter case, and only then, it logs a warning listing every free
    parameter's name and value; every other exception propagates
    unchanged; otherwise the finite sum is returned. *)
Theorem log_like_outcomes (s : Sampler Dataset Edges) (t : list R) (st : State) :
  (snd (_log_like gl ifl s t st) = Ret NInf <->
     snd (log_like_values gl ifl s st) = Raise ModelAssertionViolation \/
     exists vs, snd (log_like_values gl ifl s st) = Ret vs /\
                isfinite (nb_sum vs) = false) /\
  (forall e, e <> ModelAssertionViolation ->
     (snd (_log_like gl ifl s t st) = Raise e <->
      snd (log_like_values gl ifl s st) = Raise e)) /\
  (forall vs, snd (log_like_values gl ifl s st) = Ret vs ->
     isfinite (nb_sum vs) = false ->
     fst (_log_like gl ifl s t st) =
       mkState (free_parameters st) (warnings st ++ [param_report st])) /\
  (forall vs, snd (log_like_values gl ifl s st) = Ret vs ->
     isfinite (nb_sum vs) = true ->
     _log_like gl ifl s t st = (st, Ret (nb_sum vs))) /\
  (forall e, snd (log_like_values gl ifl s st) = Raise e ->
     fst (_log_like gl ifl s t st) = st).
Proof.
  rewrite !log_like_cases.
  destruct (snd (log_like_values gl ifl s st)) as [vs | e] eqn:Hr.
  - destruct (isfinite (nb_sum vs)) eqn:F.
    + split; [| split; [| split; [| split]]]; simpl.
      * split; [intros H | intros [H | (vs' & H & H')]]; try discriminate.
        -- injection H as H. rewrite H in F. discriminate.
        -- injection H as <-. congruence.
      * intros e _; split; intros H; discriminate.
      * intros vs' H. injection H as <-. congruence.
      * intros vs' H _. now injection H as <-.
      * intros e H; discriminate.
    + split; [| split; [| split; [| split]]]; simpl.
      * split; [intros _; right; exists vs; auto | reflexivity].
      * intros e _; split; intros H; discriminate.
      * reflexivity.
      * intros vs' H. injection H as <-. congruence.
      * intros e H; discriminate.
  - destruct e; (split; [| split; [| split; [| split]]]); simpl;
      try (intros vs H; discriminate); try (intros; reflexivity);
      try (split; [intros H; discriminate | intros [H | (vs & H & _)]; discriminate]);
      try (intros e' Hne; split; intros H; congruence).
    + split; [intros _; left; reflexivity | reflexivity].
Qed.

(** Claim C7: the [loglike] closure of the unit-cube adapter assigns the
    trial values to the free parameters in order and returns what
    [_log_like] returns, with no log-prior added; its outcome and the state
    it leaves do not depend on the priors of the parameters at all (only on
    their names and values), so no prior density enters it. *)
Theorem loglike_likelihood_only (s : Sampler Dataset Edges) (t : list R) (st : State) :
  (List.length (free_parameters st) <= List.length t ->
   loglike gl ifl s t st =
     _log_like gl ifl s t
       (mkState (combine (map fst (free_parameters st)) t) (warnings st))) /\
  (forall st', view st' = view st ->
     snd (loglike gl ifl s t st') = snd (loglike gl ifl s t st) /\
     view (fst (loglike gl ifl s t st')) = view (fst (loglike gl ifl s t st))).
Proof.
  split.
  - intros Hlen. destruct st as [P w]; simpl in *.
    unfold loglike, mbind at 1, mget. cbv beta. cbn [free_parameters].
    unfold mbind at 1.
    pose proof (assign_loop_all P [] w t 0 eq_refl Hlen) as HA.
    cbn [app skipn] in HA. rewrite HA. reflexivity.
  - intros st' Hv. unfold loglike, mbind at 1 3, mget. cbv beta.
    assert (Hl : List.length (free_parameters st') = List.length (free_parameters st)).
    { unfold view, param_report in Hv. injection Hv as Hv _.
      apply (f_equal (@List.length _)) in Hv. rewrite !length_map in Hv. exact Hv. }
    destruct (assign_loop_view _ _ t Hl 0 st' st Hv) as [H1 H2].
    unfold mbind.
    destruct (assign_loop (free_parameters st') t 0 st') as [s1 r1].
    destruct (assign_loop (free_parameters st) t 0 st) as [s2 r2].
    simpl in H1, H2. subst r2.
    destruct r1 as [[] | e]; [| split; [reflexivity | exact H2]].
    apply log_like_view. exact H2.
Qed.

End LogLikeFacts.

(** ** The shared-spectrum path *)

Section SharedSpectrum.

Variables Dataset Flux Edges : Type.
Variable gl : Dataset -> option Flux -> list R -> res fl.
Variable ifl : Dataset -> list R -> res Flux.
Variable ein_edges : Dataset -> option Edges.
Variable edges_eqb : Edges -> Edges -> bool.

Lemma find_group_bound (e : option Edges) gs :
  forall n g, find_group edges_eqb e gs n = Some g -> n <= g < n + List.length gs.
Proof.
  induction gs as [| e' gs IH]; intros n g H; simpl in H; [discriminate |].
  destruct (opt_edges_eqb edges_eqb e e').
  - injection H as <-. simpl; lia.
  - apply IH in H. simpl; lia.
Qed.

Lemma share_spectrum_build_inv (ds : list (string * Dataset)) :
  forall keys edges connect,
    List.length keys = List.length edges ->
    Forall (fun c => c < List.length edges) connect ->
    let plan := share_spectrum_build ein_edges edges_eqb ds keys edges connect in
    List.length (base_plugin_key plan) = List.length (data_ein_edges plan) /\
    List.length (data_ebin_connect plan) = List.length connect + List.length ds /\
    Forall (fun c => c < List.length (data_ein_edges plan)) (data_ebin_connect plan).
Proof.
  induction ds as [| [k d] ds IH]; intros keys edges connect Hl Hc; simpl.
  - rewrite Nat.add_0_r. auto.
  - destruct (find_group edges_eqb (ein_edges d) edges 0) as [g |] eqn:Hg.
    + apply find_group_bound in Hg.
      destruct (IH keys edges (connect ++ [g]) Hl) as (H1 & H2 & H3).
      * apply Forall_app; split; [exact Hc | constructor; [lia | constructor]].
      * rewrite length_app in H2; simpl in H2. split; [exact H1 | split; [lia | exact H3]].
    + destruct (IH (keys ++ [k]) (edges ++ [ein_edges d]) (connect ++ [List.length edges]))
        as (H1 & H2 & H3).
      * rewrite !length_app; simpl; lia.
      * rewrite length_app; simpl. apply Forall_app; split.
        -- eapply Forall_impl; [| exact Hc]. simpl; intros; lia.
        -- constructor; [lia | constructor].
      * rewrite length_app in H2; simpl in H2. split; [exact H1 | split; [lia | exact H3]].
Qed.

Lemma ShareSpectrum_inv (dl : list (string * Dataset)) :
  let plan := ShareSpectrum ein_edges edges_eqb dl in
  List.length (base_plugin_key plan) = List.length (data_ein_edges plan) /\
  List.length (data_ebin_connect plan) = List.length dl /\
  Forall (fun c => c < List.length (data_ein_edges plan)) (data_ebin_connect plan).
Proof.
  unfold ShareSpectrum.
  destruct (share_spectrum_build_inv dl [] [] [] eq_refl (Forall_nil _))
    as (H1 & H2 & H3).
  auto.
Qed.

Lemma precalc_fluxes_ok (dl : list (string * Dataset)) (st : State) keys :
  forall (edges : list (option Edges)),
    List.length keys = List.length edges ->
    (forall g k ed, nth_error keys g = Some k -> nth_error edges g = Some (Some ed) ->
       exists d f, py_lookup k dl = Ret d /\ ifl d (values st) = Ret f) ->
    exists pre,
      snd (precalc_fluxes ifl dl keys edges st) = Ret pre /\
      (forall g, nth_error edges g = Some None -> nth_error pre g = Some None) /\
      (forall g k ed d f, nth_error keys g = Some k -> nth_error edges g = Some (Some ed) ->
         py_lookup k dl = Ret d -> ifl d (values st) = Ret f ->
         nth_error pre g = Some (Some f)).
Proof.
  induction keys as [| k keys IH]; intros [| e edges] Hl Hf; simpl in Hl;
    try discriminate.
  - exists []. split; [reflexivity |]. split; intros [|]; simpl; discriminate.
  - assert (Hf' : forall g k' ed, nth_error keys g = Some k' ->
                   nth_error edges g = Some (Some ed) ->
                   exists d f, py_lookup k' dl = Ret d /\ ifl d (values st) = Ret f).
    { intros g. apply (Hf (S g)). }
    destruct (IH edges ltac:(lia) Hf') as (pre & Hpre & HN & HS).
    pose proof (pure_reader_split _ st (precalc_fluxes_reader _ _ _ ifl dl keys edges))
      as Erest.
    rewrite Hpre in Erest.
    cbn [precalc_fluxes]. destruct e as [ed |].
    + destruct (Hf 0 k ed eq_refl eq_refl) as (d & f & Hd & Hfl).
      exists (Some f :: pre).
      unfold dataset_integral_flux, mbind, mlift, mget, mret.
      cbv beta. rewrite Hd, Hfl. rewrite Erest. split; [reflexivity |].
      split.
      * intros [| g] H; simpl in *; [discriminate | now apply HN].
      * intros [| g] k' ed' d' f' H1 H2 H3 H4; simpl in *.
        -- injection H1 as <-. rewrite Hd in H3. injection H3 as <-.
           rewrite Hfl in H4. now injection H4 as <-.
        -- eapply HS; eauto.
    + exists (None :: pre).
      unfold mbind, mret. rewrite Erest. split; [reflexivity |]. split.
      * intros [| g] H; simpl in *; [reflexivity | now apply HN].
      * intros [| g] k' ed' d' f' H1 H2 H3 H4; simpl in *; [discriminate |].
        eapply HS; eauto.
Qed.

Lemma log_like_shared_plain (plan : ShareSpectrumPlan Edges)
    (pre : list (option Flux)) (st : State) ds :
  forall i,
    (forall j key d, nth_error ds j = Some (key, d) ->
       exists g o, nth_error (data_ebin_connect plan) (i + j) = Some g /\
         nth_error (data_ein_edges plan) g = Some o /\
         match o with
         | None => True
         | Some _ => exists f, nth_error pre g = Some (Some f) /\
                      gl d (Some f) (values st) = gl d None (values st)
         end) ->
    snd (log_like_shared gl plan pre ds i st) = snd (log_like_plain gl ds st).
Proof.
  induction ds as [| [key d] ds IH]; intros i H; [reflexivity |].
  destruct (H 0 key d eq_refl) as (g & o & Hg & Ho & Hm).
  rewrite Nat.add_0_r in Hg.
  assert (IH' : snd (log_like_shared gl plan pre ds (S i) st) =
                snd (log_like_plain gl ds st)).
  { apply IH. intros j key' d' Hj.
    destruct (H (S j) key' d' Hj) as (g' & o' & H1 & H2 & H3).
    exists g', o'. replace (S i + j) with (i + S j) by lia. auto. }
  pose proof (pure_reader_split _ st (log_like_shared_reader _ _ _ gl plan pre ds (S i)))
    as E1.
  pose proof (pure_reader_split _ st (log_like_plain_reader _ _ gl ds)) as E2.
  rewrite IH' in E1.
  cbn [log_like_shared log_like_plain].
  unfold dataset_get_log_like, mbind, mlift, py_index, mget, mret.
  cbv beta. rewrite Hg, Ho.
  destruct o as [ed |].
  - destruct Hm as (f & Hf & Heq). rewrite Hf. cbv beta iota. rewrite Heq.
    destruct (gl d None (values st)); [| reflexivity].
    rewrite E1, E2. reflexivity.
  - destruct (gl d None (values st)); [| reflexivity].
    rewrite E1, E2. reflexivity.
Qed.

(** Claim C3: with the plan that [ShareSpectrum] builds from the dataset
    collection, the shared-spectrum [_log_like] gives the same outcome and
    the same final state as the non-shared one, given that for every
    group with input energy bins the base plugin's integral flux is
    computed without raising and every dataset of the group gives the same
    log-likelihood with that precomputed flux as without argument. *)
Theorem shared_spectrum_refines (dl : list (string * Dataset)) (t : list R) (st : State) :
  let plan := ShareSpectrum ein_edges edges_eqb dl in
  (forall g k ed, nth_error (base_plugin_key plan) g = Some k ->
     nth_error (data_ein_edges plan) g = Some (Some ed) ->
     exists d f, py_lookup k dl = Ret d /\ ifl d (values st) = Ret f /\
       forall i key di, nth_error dl i = Some (key, di) ->
         nth_error (data_ebin_connect plan) i = Some g ->
         gl di (Some f) (values st) = gl di None (values st)) ->
  _log_like gl ifl (mkSampler dl true (Some plan)) t st =
  _log_like gl ifl (mkSampler dl false (@None (ShareSpectrumPlan Edges))) t st.
Proof.
  intros plan H.
  destruct (ShareSpectrum_inv dl) as (Hl & Hc & Hb). fold plan in Hl, Hc, Hb.
  destruct (precalc_fluxes_ok dl st (base_plugin_key plan) (data_ein_edges plan) Hl)
    as (pre & Hpre & HN & HS).
  { intros g k ed H1 H2. destruct (H g k ed H1 H2) as (d & f & Hd & Hf & _).
    eauto. }
  rewrite !log_like_cases. f_equal.
  all: cbn [log_like_values share_spectrum share_spectrum_object data_list].
  all: pose proof (pure_reader_split _ st
         (precalc_fluxes_reader _ _ _ ifl dl (base_plugin_key plan) (data_ein_edges plan)))
         as E; rewrite Hpre in E.
  all: unfold mbind at 1; rewrite E.
  all: rewrite (log_like_shared_plain plan pre st dl 0); [reflexivity |].
  all: intros j key d Hj.
  all: assert (Hjc : j < List.length (data_ebin_connect plan))
         by (rewrite Hc; apply nth_error_Some; rewrite Hj; discriminate).
  all: destruct (nth_error (data_ebin_connect plan) j) as [g |] eqn:Hg;
         [| apply nth_error_None in Hg; lia].
  all: assert (Hge : g < List.length (data_ein_edges plan))
         by (rewrite Forall_forall in Hb; apply Hb; eapply nth_error_In; exact Hg).
  all: destruct (nth_error (data_ein_edges plan) g) as [o |] eqn:Ho;
         [| apply nth_error_None in Ho; lia].
  all: exists g, o; simpl; split; [exact Hg | split; [exact Ho |]].
  all: destruct o as [ed |]; [| exact I].
  all: assert (Hk : g < List.length (base_plugin_key plan)) by lia.
  all: destruct (nth_error (base_plugin_key plan) g) as [k |] eqn:Hkg;
         [| apply nth_error_None in Hkg; lia].
  all: destruct (H g k ed Hkg Ho) as (d0 & f & Hd0 & Hf & Heq).
  all: exists f; split; [eapply HS; eauto | eapply Heq; eauto].
Qed.

End SharedSpectrum.

Lemma shared_spectrum_refines_witness :
  (forall g k ed,
     nth_error (base_plugin_key (ShareSpectrum det_edges Nat.eqb det_list)) g = Some k ->
     nth_error (data_ein_edges (ShareSpectrum det_edges Nat.eqb det_list)) g = Some (Some ed) ->
     exists d f, py_lookup k det_list = Ret d /\ det_flux d (values ex_state) = Ret f /\
       forall i key di, nth_error det_list i = Some (key, di) ->
         nth_error (data_ebin_connect (ShareSpectrum det_edges Nat.eqb det_list)) i = Some g ->
         det_log_like di (Some f) (values ex_state) = det_log_like di None (values ex_state)) /\
  _log_like det_log_like det_flux
    (mkSampler det_list true (Some (ShareSpectrum det_edges Nat.eqb det_list))) [] ex_state =
  _log_like det_log_like det_flux
    (mkSampler det_list false (@None (ShareSpectrumPlan nat))) [] ex_state.
Proof.
  assert (H : forall g k ed,
     nth_error (base_plugin_key (ShareSpectrum det_edges Nat.eqb det_list)) g = Some k ->
     nth_error (data_ein_edges (ShareSpectrum det_edges Nat.eqb det_list)) g = Some (Some ed) ->
     exists d f, py_lookup k det_list = Ret d /\ det_flux d (values ex_state) = Ret f /\
       forall i key di, nth_error det_list i = Some (key, di) ->
         nth_error (data_ebin_connect (ShareSpectrum det_edges Nat.eqb det_list)) i = Some g ->
         det_log_like di (Some f) (values ex_state) = det_log_like di None (values ex_state)).
  { intros g k ed H1 H2.
    assert (Hg : g < 2).
    { assert (Hlt : g < List.length (data_ein_edges (ShareSpectrum det_edges Nat.eqb det_list)))
        by (apply nth_error_Some; rewrite H2; discriminate).
      vm_compute in Hlt. lia. }
    destruct g as [| [| g]]; [| | lia]; vm_compute in H1, H2;
      [| discriminate].
    injection H1 as <-. exists 1, 5%R. split; [reflexivity |].
    split; [reflexivity |]. intros; reflexivity. }
  split; [exact H |].
  exact (shared_spectrum_refines nat R nat det_log_like det_flux det_edges Nat.eqb
           det_list [] ex_state H).
Defined.

(** ** [arg_median] *)

Lemma Permutation_filter_length {X} (p : X -> bool) (l l' : list X) :
  Permutation l l' -> List.length (filter p l) = List.length (filter p l').
Proof.
  induction 1; simpl.
  - reflexivity.
  - destruct (p x); simpl; congruence.
  - destruct (p x), (p y); reflexivity.
  - congruence.
Qed.

Section Median.

Variable A : Type.
Variable leb : A -> A -> bool.
Hypothesis leb_total : forall x y, leb x y = true \/ leb y x = true.
Hypothesis leb_trans : forall x y z, leb x y = true -> leb y z = true -> leb x z = true.

Let le x y := leb x y = true.

Lemma leb_refl x : leb x x = true.
Proof. destruct (leb_total x x); assumption. Qed.

Lemma feq_refl x : feq leb x x = true.
Proof. unfold feq. now rewrite leb_refl. Qed.

Lemma insert_perm x l : Permutation (insert leb x l) (x :: l).
Proof.
  induction l as [| y l IH]; simpl; [reflexivity |].
  destruct (leb x y); [reflexivity |].
  rewrite IH. apply perm_swap.
Qed.

Lemma sort_perm l : Permutation (sort leb l) l.
Proof.
  induction l as [| x l IH]; simpl; [reflexivity |].
  rewrite insert_perm. now rewrite IH.
Qed.

Lemma insert_sorted x l : Sorted le l -> Sorted le (insert leb x l).
Proof.
  induction 1 as [| y l Hs IH Hhd]; simpl.
  - repeat constructor.
  - destruct (leb x y) eqn:Exy.
    + constructor; [constructor; assumption | constructor; exact Exy].
    + assert (Hyx : le y x).
      { destruct (leb_total x y) as [H | H]; [congruence | exact H]. }
      constructor; [exact IH |].
      destruct l as [| z l]; simpl.
      * constructor; exact Hyx.
      * inversion Hhd as [| ? ? Hyz]; subst.
        destruct (leb x z); constructor; assumption.
Qed.

Lemma sort_sorted l : StronglySorted le (sort leb l).
Proof.
  apply Sorted_StronglySorted.
  - intros x y z; apply leb_trans.
  - induction l as [| x l IH]; simpl; [constructor | now apply insert_sorted].
Qed.

Lemma strongly_sorted_split s1 m s2 :
  StronglySorted le (s1 ++ m :: s2) ->
  Forall (fun y => le y m) s1 /\ Forall (fun y => le m y) s2.
Proof.
  induction s1 as [| y s1 IH]; simpl; intros H.
  - inversion H; subst. split; [constructor | assumption].
  - inversion H as [| ? ? Hs Hf]; subst. destruct (IH Hs) as [H1 H2].
    split; [| exact H2]. constructor; [| exact H1].
    rewrite Forall_forall in Hf. apply Hf. apply in_or_app; right; left; reflexivity.
Qed.

(** The [k]-th order statistic [m] of a sorted list: at most [k] elements
    are below [m] and more than [k] are at most [m]. *)
Lemma sorted_order_stat s k m :
  StronglySorted le s -> nth_error s k = Some m ->
  List.length (filter (fun x => flt leb x m) s) <= k /\
  k < List.length (filter (fun x => leb x m) s).
Proof.
  intros Hs Hk. apply nth_error_split in Hk as (s1 & s2 & -> & <-).
  destruct (strongly_sorted_split _ _ _ Hs) as [H1 H2].
  rewrite !filter_app, !length_app. simpl.
  unfold flt at 2. rewrite leb_refl. simpl.
  assert (E2 : filter (fun x => flt leb x m) s2 = []).
  { clear Hs H1. induction H2 as [| y s2 Hy _ IH]; simpl; [reflexivity |].
    unfold flt at 1. unfold le in Hy. rewrite Hy. simpl. exact IH. }
  assert (E1 : filter (fun x => leb x m) s1 = s1).
  { clear Hs H2 E2. induction H1 as [| y s1 Hy _ IH]; simpl; [reflexivity |].
    unfold le in Hy. rewrite Hy. now rewrite IH. }
  rewrite E2, E1. simpl.
  split; [| lia].
  rewrite Nat.add_0_r. apply (filter_length_le (A := A)).
Qed.

Lemma first_index_from_found a v :
  forall i, (exists x, In x a /\ feq leb x v = true) ->
  exists j x, first_index_from leb a v i = Ret (i + j) /\ nth_error a j = Some x /\
    feq leb x v = true /\
    forall j' y, j' < j -> nth_error a j' = Some y -> feq leb y v = false.
Proof.
  induction a as [| x a IH]; intros i (y & Hy & Hf); [destruct Hy |].
  simpl. destruct (feq leb x v) eqn:Ex.
  - exists 0, x. rewrite Nat.add_0_r. repeat split; auto. intros; lia.
  - destruct Hy as [-> | Hy]; [congruence |].
    destruct (IH (S i) (ex_intro _ y (conj Hy Hf))) as (j & z & H1 & H2 & H3 & H4).
    exists (S j), z. rewrite <- Nat.add_succ_comm. repeat split; auto.
    intros [| j'] w Hj' Hw; simpl in Hw.
    + now injection Hw as <-.
    + apply (H4 j' w); [lia | exact Hw].
Qed.

End Median.

Lemma order_statistic_of_sort {A} (leb : A -> A -> bool)
    (Htot : forall x y, leb x y = true \/ leb y x = true)
    (Htr : forall x y z, leb x y = true -> leb y z = true -> leb x z = true)
    a k m :
  nth_error (sort leb a) k = Some m ->
  order_statistic leb k m a /\ first_occurrence leb (match np_where_first leb a m with
                                                     | Ret i => i | Raise _ => 0 end) m a /\
  exists i, np_where_first leb a m = Ret i /\ i < List.length a.
Proof.
  intros Hk.
  destruct (sorted_order_stat A leb Htot (sort leb a) k m (sort_sorted A leb Htot Htr a) Hk)
    as [H1 H2].
  pose proof (sort_perm A leb a) as Hp.
  assert (Hin : In m a) by (eapply Permutation_in; [exact Hp | eapply nth_error_In; exact Hk]).
  destruct (first_index_from_found A leb a m 0 (ex_intro _ m (conj Hin (feq_refl A leb Htot m))))
    as (j & x & Hj & Hx & Hf & Hfirst).
  unfold np_where_first. rewrite Hj. simpl.
  split; [| split].
  - unfold order_statistic.
    rewrite <- !(Permutation_filter_length _ _ _ Hp). auto.
  - exists x. auto.
  - exists j. split; [reflexivity |]. apply nth_error_Some. rewrite Hx; discriminate.
Qed.

(** Claim C6: on a non-empty vector (elements compared with a total
    preorder, as numpy compares floats other than [nan]) [arg_median]
    returns an index of the vector: for odd length the first index whose
    element equals the median (the middle order statistic); for even
    length the smaller of the first indices of the lower-middle and the
    upper-middle order statistics.  On [[3,1,4,1,5,9]] it returns 0. *)
Theorem arg_median_correct (A : Type) (leb : A -> A -> bool)
    (Htot : forall x y, leb x y = true \/ leb y x = true)
    (Htr : forall x y z, leb x y = true -> leb y z = true -> leb x z = true)
    (a : list A) :
  a <> [] ->
  (exists i, arg_median leb a = Ret i /\ i < List.length a /\
     (List.length a mod 2 = 1 ->
        exists m, order_statistic leb (List.length a / 2) m a /\
                  first_occurrence leb i m a) /\
     (List.length a mod 2 = 0 ->
        exists lo hi il ir,
          order_statistic leb (List.length a / 2 - 1) lo a /\
          order_statistic leb (List.length a / 2) hi a /\
          first_occurrence leb il lo a /\ first_occurrence leb ir hi a /\
          i = Nat.min il ir)) /\
  arg_median Z.leb [3; 1; 4; 1; 5; 9]%Z = Ret 0.
Proof.
  intros Hne. split; [| reflexivity].
  assert (Hn : 0 < List.length a) by (destruct a; [congruence | simpl; lia]).
  assert (Hsl : List.length (sort leb a) = List.length a)
    by (apply Permutation_length, sort_perm).
  pose proof (Nat.div_mod_eq (List.length a) 2) as Hdm.
  pose proof (Nat.mod_upper_bound (List.length a) 2 ltac:(lia)) as Hmb.
  set (n := List.length a) in *. set (h := n / 2) in *. set (r := n mod 2) in *.
  unfold arg_median. fold n. fold h. fold r.
  destruct (Nat.eqb r 1) eqn:Er.
  - apply Nat.eqb_eq in Er.
    assert (Hh : h < List.length (sort leb a)) by lia.
    destruct (nth_error (sort leb a) h) as [m |] eqn:Em;
      [| apply nth_error_None in Em; lia].
    destruct (order_statistic_of_sort leb Htot Htr a h m Em)
      as (Hos & Hfo & i & Hi & Hlt).
    unfold np_median_odd, py_index. fold n. fold h. rewrite Em. simpl.
    rewrite Hi in *. exists i. split; [reflexivity |]. split; [exact Hlt |].
    split; [intros _; exists m; auto | intros; lia].
  - apply Nat.eqb_neq in Er. assert (Er0 : r = 0) by lia.
    assert (Hh1 : 1 <= h) by lia.
    assert (Hl : (Z.of_nat h - 1)%Z = Z.of_nat (h - 1)) by lia.
    unfold np_partition_kth. fold n. rewrite Hl.
    replace ((Z.of_nat (h - 1) <? 0)%Z) with false by (symmetry; apply Z.ltb_ge; lia).
    replace ((Z.of_nat h <? 0)%Z) with false by (symmetry; apply Z.ltb_ge; lia).
    replace ((Z.of_nat (h - 1) <? 0)%Z || (Z.of_nat n <=? Z.of_nat (h - 1))%Z)%bool
      with false by (symmetry; apply orb_false_iff; split; [apply Z.ltb_ge | apply Z.leb_gt]; lia).
    replace ((Z.of_nat h <? 0)%Z || (Z.of_nat n <=? Z.of_nat h)%Z)%bool
      with false by (symmetry; apply orb_false_iff; split; [apply Z.ltb_ge | apply Z.leb_gt]; lia).
    rewrite !Nat2Z.id.
    destruct (nth_error (sort leb a) (h - 1)) as [lo |] eqn:Elo;
      [| apply nth_error_None in Elo; lia].
    destruct (nth_error (sort leb a) h) as [hi |] eqn:Ehi;
      [| apply nth_error_None in Ehi; lia].
    destruct (order_statistic_of_sort leb Htot Htr a (h - 1) lo Elo)
      as (Hos1 & Hfo1 & il & Hil & Hlt1).
    destruct (order_statistic_of_sort leb Htot Htr a h hi Ehi)
      as (Hos2 & Hfo2 & ir & Hir & Hlt2).
    unfold py_index. rewrite Elo, Ehi. simpl. rewrite Hil, Hir in *. simpl.
    exists (Nat.min il ir). split; [reflexivity |].
    split; [lia |]. split; [intros; lia |].
    intros _. exists lo, hi, il, ir. auto.
Qed.

Lemma arg_median_correct_witness :
  (forall x y, Z.leb x y = true \/ Z.leb y x = true) /\
  (forall x y z, Z.leb x y = true -> Z.leb y z = true -> Z.leb x z = true) /\
  [3; 1; 4; 1; 5; 9]%Z <> [] /\
  exists i, arg_median Z.leb [3; 1; 4; 1; 5; 9]%Z = Ret i /\ i < 6.
Proof.
  assert (Htot : forall x y, Z.leb x y = true \/ Z.leb y x = true).
  { intros x y. destruct (Z.le_ge_cases x y) as [H | H];
      [left; now apply Z.leb_le | right; apply Z.leb_le; lia]. }
  assert (Htr : forall x y z, Z.leb x y = true -> Z.leb y z = true -> Z.leb x z = true).
  { intros x y z H1 H2. apply Z.leb_le in H1, H2. apply Z.leb_le. lia. }
  assert (Hne : [3; 1; 4; 1; 5; 9]%Z <> []) by discriminate.
  split; [exact Htot |]. split; [exact Htr |]. split; [exact Hne |].
  destruct (arg_median_correct Z Z.leb Htot Htr [3; 1; 4; 1; 5; 9]%Z Hne)
    as [(i & H1 & H2 & _) _].
  exists i. split; [exact H1 | exact H2].
Defined.

(** ** The restore steps *)

Lemma set_nth_value_idem i v (P : list (FreeParameter * R)) :
  set_nth_value i v (set_nth_value i v P) = set_nth_value i v P.
Proof.
  revert i; induction P as [| [p w] P IH]; intros [| i]; simpl; auto.
  now rewrite IH.
Qed.

Lemma set_nth_value_comm i j v w (P : list (FreeParameter * R)) :
  i <> j ->
  set_nth_value i v (set_nth_value j w P) = set_nth_value j w (set_nth_value i v P).
Proof.
  revert i j; induction P as [| [p u] P IH]; intros [| i] [| j] H; simpl; auto.
  - congruence.
  - rewrite IH; auto.
Qed.

Lemma set_nth_value_names i v (P : list (FreeParameter * R)) :
  map (fun pv => name (fst pv)) (set_nth_value i v P) = map (fun pv => name (fst pv)) P.
Proof.
  revert i; induction P as [| [p u] P IH]; intros [| i]; simpl; auto.
  now rewrite IH.
Qed.

Lemma restore_loop_names samples names idx :
  forall i st,
    map (fun pv => name (fst pv)) (free_parameters (fst (restore_loop samples names idx i st)))
    = map (fun pv => name (fst pv)) (free_parameters st).
Proof.
  induction names as [| n names IH]; intros i st; [reflexivity |].
  cbn [restore_loop]. unfold mbind, mlift, mmodify.
  destruct (py_lookup n samples) as [col |]; [| reflexivity].
  destruct (py_index col idx) as [par |]; [| reflexivity].
  rewrite IH. unfold set_value; simpl. apply set_nth_value_names.
Qed.

(** Writes at indices from [i] on commute with a write below [i]. *)
Lemma restore_loop_below samples names idx :
  forall i j v st, j < i ->
    restore_loop samples names idx i (set_value j v st) =
      (set_value j v (fst (restore_loop samples names idx i st)),
       snd (restore_loop samples names idx i st)).
Proof.
  induction names as [| n names IH]; intros i j v st Hj; [reflexivity |].
  cbn [restore_loop]. unfold mbind, mlift, mmodify.
  destruct (py_lookup n samples) as [col |]; [| reflexivity].
  destruct (py_index col idx) as [par |]; [| reflexivity].
  replace (set_value i par (set_value j v st)) with (set_value j v (set_value i par st)).
  - rewrite IH by lia. reflexivity.
  - unfold set_value; simpl. rewrite set_nth_value_comm by lia. reflexivity.
Qed.

Lemma restore_loop_idem samples names idx :
  forall i st,
    restore_loop samples names idx i (fst (restore_loop samples names idx i st)) =
      restore_loop samples names idx i st.
Proof.
  induction names as [| n names IH]; intros i st; [reflexivity |].
  cbn [restore_loop]. unfold mbind, mlift, mmodify.
  destruct (py_lookup n samples) as [col |]; [| reflexivity].
  destruct (py_index col idx) as [par |]; [| reflexivity].
  rewrite (restore_loop_below samples names idx (S i) i par st) by lia.
  cbn [fst snd].
  assert (E : set_value i par (set_value i par (fst (restore_loop samples names idx (S i) st)))
              = set_value i par (fst (restore_loop samples names idx (S i) st))).
  { unfold set_value; simpl. now rewrite set_nth_value_idem. }
  rewrite E.
  rewrite (restore_loop_below samples names idx (S i) i par) by lia.
  rewrite IH. reflexivity.
Qed.

Lemma restore_at_idem samples (idx : res nat) st :
  restore_at samples idx (fst (restore_at samples idx st)) = restore_at samples idx st.
Proof.
  unfold restore_at, mbind, mlift, mget.
  destruct idx as [i |]; [| reflexivity]. cbv beta iota.
  rewrite restore_loop_names. apply restore_loop_idem.
Qed.

(** Claim C9: for fixed samples and log-probability vector, running
    [restore_median_fit] (resp. [restore_MAP_fit]) a second time right
    after the first leaves the same state, and the same outcome, as the
    first run alone. *)
Theorem restore_fit_idempotent (A : Type) (leb : A -> A -> bool)
    (samples : list (string * list R)) (log_probability_values : list A) (st : State) :
  restore_median_fit leb samples log_probability_values
    (fst (restore_median_fit leb samples log_probability_values st)) =
  restore_median_fit leb samples log_probability_values st /\
  restore_MAP_fit leb samples log_probability_values
    (fst (restore_MAP_fit leb samples log_probability_values st)) =
  restore_MAP_fit leb samples log_probability_values st.
Proof.
  split; apply restore_at_idem.
Qed.

(** ** The unit-cube adapter *)

Lemma list_set_length {X} (xs : list X) i x : List.length (list_set xs i x) = List.length xs.
Proof.
  revert i; induction xs as [| y xs IH]; intros [| i]; simpl; auto.
Qed.

Lemma transform_loop_incompatible pre p post :
  Forall (fun q => from_unit_cube q <> None) pre ->
  from_unit_cube p = None ->
  forall i params, i + List.length pre <= List.length params ->
    snd (transform_loop (pre ++ p :: post) i params) =
      Some (RuntimeError (unitcube_error_msg (name p))).
Proof.
  intros Hpre Hp. induction Hpre as [| q pre Hq Hpre IH]; intros i params Hlen.
  - simpl. now rewrite Hp.
  - simpl. destruct (from_unit_cube q) as [f |]; [| congruence].
    simpl in Hlen.
    destruct (nth_error params i) as [x |] eqn:E.
    + apply IH. rewrite list_set_length. lia.
    + apply nth_error_None in E. lia.
Qed.

Section UnitCube.

Variables Dataset Flux Edges : Type.
Variable gl : Dataset -> option Flux -> list R -> res fl.
Variable ifl : Dataset -> list R -> res Flux.

(** Counterexample to claim C8: both parameters of [ex_state] lack the
    unit-cube transform, yet building the copy-returning variant succeeds;
    the error only comes when the returned [prior] is called. *)
Lemma unitcube_copy_no_dry_run :
  _construct_unitcube_posterior flat_log_like unit_flux ex_sampler true ex_state =
    (ex_state, Ret (loglike flat_log_like unit_flux ex_sampler,
                    PriorCopy (prior_copy [par_a; par_b]))) /\
  prior_copy [par_a; par_b] [(1/2)%R; (1/2)%R] = Raise (RuntimeError (unitcube_error_msg "a")).
Proof. split; reflexivity. Qed.

(** Claim C8 (amended): let the free parameters be [pre ++ p :: post], where
    every parameter of [pre] has a unit-cube transform and [p] has none.
    The in-place variant dry-runs its [prior] on [[0.5]*n] while being built
    and raises the RuntimeError naming [p]. The copy-returning variant has no
    dry run: building it succeeds, and its [prior] raises that RuntimeError
    when called on any cube long enough for the parameters before [p]. *)
Theorem unitcube_incompatible_prior (s : Sampler Dataset Edges) (st : State)
    (pre : list FreeParameter) (p : FreeParameter) (post : list FreeParameter)
    (Hps : map fst (free_parameters st) = pre ++ p :: post)
    (Hpre : Forall (fun q => from_unit_cube q <> None) pre)
    (Hp : from_unit_cube p = None) :
  _construct_unitcube_posterior gl ifl s false st =
    (st, Raise (RuntimeError (unitcube_error_msg (name p)))) /\
  _construct_unitcube_posterior gl ifl s true st =
    (st, Ret (loglike gl ifl s, PriorCopy (prior_copy (pre ++ p :: post)))) /\
  (forall cube, List.length pre <= List.length cube ->
     prior_copy (pre ++ p :: post) cube =
       Raise (RuntimeError (unitcube_error_msg (name p)))).
Proof.
  assert (Hcopy : forall cube, List.length pre <= List.length cube ->
     prior_copy (pre ++ p :: post) cube =
       Raise (RuntimeError (unitcube_error_msg (name p)))).
  { intros cube Hc. unfold prior_copy.
    pose proof (transform_loop_incompatible pre p post Hpre Hp 0 cube ltac:(lia)) as H.
    destruct (transform_loop (pre ++ p :: post) 0 cube) as [params [e |]];
      simpl in H; congruence. }
  split; [| split; [| exact Hcopy]].
  - unfold _construct_unitcube_posterior, mbind, mget. cbv beta iota.
    rewrite Hps. unfold prior_in_place.
    pose proof (transform_loop_incompatible pre p post Hpre Hp 0
                  (repeat (1/2)%R (List.length (pre ++ p :: post)))) as H.
    specialize (H ltac:(rewrite repeat_length, length_app; simpl; lia)).
    destruct (transform_loop (pre ++ p :: post) 0 _) as [params [e |]];
      simpl in H; [| discriminate].
    injection H as ->. reflexivity.
  - unfold _construct_unitcube_posterior, mbind, mget. cbv beta iota.
    rewrite Hps. reflexivity.
Qed.

End UnitCube.

Lemma unitcube_incompatible_prior_witness :
  map fst (free_parameters mixed_state) = [par_c] ++ par_a :: [] /\
  Forall (fun q => from_unit_cube q <> None) [par_c] /\
  from_unit_cube par_a = None /\
  _construct_unitcube_posterior flat_log_like unit_flux ex_sampler false mixed_state =
    (mixed_state, Raise (RuntimeError (unitcube_error_msg (name par_a)))).
Proof.
  assert (H1 : map fst (free_parameters mixed_state) = [par_c] ++ par_a :: []) by reflexivity.
  assert (H2 : Forall (fun q => from_unit_cube q <> None) [par_c]).
  { constructor; [discriminate | constructor]. }
  assert (H3 : from_unit_cube par_a = None) by reflexivity.
  split; [exact H1 |]. split; [exact H2 |]. split; [exact H3 |].
  exact (proj1 (unitcube_incompatible_prior unit unit unit flat_log_like unit_flux
                  ex_sampler mixed_state [par_c] par_a [] H1 H2 H3)).
Defined.

(** ** The constructor's [share_spectrum] flag *)

(** Counterexample to claim C10: with [share_spectrum=1] the assertion
    fails, but only after the ordinary attributes, [_n_plugins] and
    [_share_spectrum] itself have been set on the instance. *)
Lemma sampler_init_assert_after_setup :
  snd (sampler_init det_edges Nat.eqb det_list [("share_spectrum"%string, PInt 1%Z)]) =
    Raise (AssertionError share_spectrum_msg) /\
  getattr (fst (sampler_init det_edges Nat.eqb det_list [("share_spectrum"%string, PInt 1%Z)]))
    "_n_plugins"%string = Some (PInt 3%Z) /\
  getattr (fst (sampler_init det_edges Nat.eqb det_list [("share_spectrum"%string, PInt 1%Z)]))
    "_share_spectrum"%string = Some (PInt 1%Z).
Proof. split; [| split]; reflexivity. Qed.

(** Claim C10 (amended): when the [share_spectrum] keyword is given a value
    [v] whose type is not exactly [bool], the constructor raises
    AssertionError("share_spectrum must be False or True."), after the
    ordinary attributes (among them [_data_list] and [_n_plugins]) have
    been set and [v] stored in [_share_spectrum], and before any
    ShareSpectrum object is built. When the keyword is absent, the
    constructor returns with [_share_spectrum] set to False and no
    [_share_spectrum_object]. *)
Theorem sampler_init_share_spectrum_flag {Dataset Edges : Type}
    (ein_edges : Dataset -> option Edges) (edges_eqb : Edges -> Edges -> bool)
    (data_list : list (string * Dataset)) (kwargs : list (string * pyobj Dataset Edges)) :
  (forall v, kw_lookup "share_spectrum"%string kwargs = Some v -> type_is_bool v = false ->
     let (o, r) := sampler_init ein_edges edges_eqb data_list kwargs in
     r = Raise (AssertionError share_spectrum_msg) /\
     getattr o "_data_list"%string = Some (PDataList data_list) /\
     getattr o "_n_plugins"%string = Some (PInt (Z.of_nat (List.length data_list))) /\
     getattr o "_share_spectrum"%string = Some v /\
     getattr o "_share_spectrum_object"%string = None) /\
  (kw_lookup "share_spectrum"%string kwargs = None ->
     let (o, r) := sampler_init ein_edges edges_eqb data_list kwargs in
     r = Ret tt /\
     getattr o "_share_spectrum"%string = Some (PBool false) /\
     getattr o "_share_spectrum_object"%string = None).
Proof.
  split.
  - intros v Hkw Hty. unfold sampler_init. rewrite Hkw, Hty. cbn [negb].
    repeat split; reflexivity.
  - intros Hkw. unfold sampler_init. rewrite Hkw.
    repeat split; reflexivity.
Qed.

Lemma sampler_init_share_spectrum_flag_witness :
  (let (o, r) := sampler_init det_edges Nat.eqb det_list [("share_spectrum"%string, PStr "yes"%string)] in
   r = Raise (AssertionError share_spectrum_msg) /\
   getattr o "_data_list"%string = Some (PDataList det_list) /\
   getattr o "_n_plugins"%string = Some (PInt 3%Z) /\
   getattr o "_share_spectrum"%string = Some (PStr "yes"%string) /\
   getattr o "_share_spectrum_object"%string = None) /\
  (let (o, r) := sampler_init det_edges Nat.eqb det_list [] in
   r = Ret tt /\
   getattr o "_share_spectrum"%string = Some (PBool false) /\
   getattr o "_share_spectrum_object"%string = None).
Proof.
  split.
  - exact (proj1 (sampler_init_share_spectrum_flag det_edges Nat.eqb det_list
                    [("share_spectrum"%string, PStr "yes"%string)])
             (PStr "yes"%string) eq_refl eq_refl).
  - exact (proj2 (sampler_init_share_spectrum_flag det_edges Nat.eqb det_list []) eq_refl).
Defined.

(** * Further properties of the sampler *)

(** ** [_log_prior] and its use in [get_posterior] *)

Lemma skipn_nth_error_cons {X} (t : list X) i x :
  nth_error t i = Some x -> skipn i t = x :: skipn (S i) t.
Proof.
  revert t; induction i as [| i IH]; intros [| y t] H; simpl in *; try discriminate.
  - now injection H as ->.
  - now apply IH.
Qed.

Lemma log_prior_loop_posterior_loop ps :
  forall t i lp st,
    log_prior_loop ps t i lp st =
      (fst (posterior_loop ps t i lp st),
       match snd (posterior_loop ps t i lp st) with
       | Ret None => Ret NInf
       | Ret (Some p) => Ret (Fin p)
       | Raise e => Raise e
       end).
Proof.
  induction ps as [| [p v] ps IH]; intros t i lp st; [reflexivity |].
  cbn [log_prior_loop posterior_loop]. unfold mbind, mlift, mret, mmodify.
  destruct (py_index t i) as [x | e]; [| reflexivity].
  destruct (Req_dec_T (prior p x) 0); [reflexivity |].
  destruct (math_log (prior p x)) as [l | e]; [| reflexivity].
  apply IH.
Qed.

Lemma log_prior_loop_app ps extra :
  forall t i lp st, i + List.length ps <= List.length t ->
    log_prior_loop ps (t ++ extra) i lp st = log_prior_loop ps t i lp st.
Proof.
  induction ps as [| [p v] ps IH]; intros t i lp st Hlen; [reflexivity |].
  simpl in Hlen.
  cbn [log_prior_loop]. unfold mbind, mlift, mret, mmodify, py_index.
  rewrite nth_error_app1 by lia.
  destruct (nth_error t i) as [x |]; [| reflexivity].
  destruct (Req_dec_T (prior p x) 0); [reflexivity |].
  destruct (math_log (prior p x)) as [l | e]; [| reflexivity].
  apply IH. lia.
Qed.

Lemma posterior_loop_negative ps :
  forall P1 w t i lp k,
    List.length P1 = i ->
    k < List.length ps ->
    List.length t = i + List.length ps ->
    (forall pv x, nth_error ps k = Some pv -> nth_error t (i + k) = Some x ->
       (prior (fst pv) x < 0)%R) ->
    (forall j pv x, j < k -> nth_error ps j = Some pv ->
       nth_error t (i + j) = Some x -> (0 < prior (fst pv) x)%R) ->
    posterior_loop ps t i lp (mkState (P1 ++ ps) w) =
      (mkState (P1 ++ combine (map fst (firstn (S k) ps)) (firstn (S k) (skipn i t))
                ++ skipn (S k) ps) w,
       Raise ValueError).
Proof.
  induction ps as [| [p v] ps IH]; intros P1 w t i lp k HP1 Hk Ht Hneg Hpos;
    [simpl in Hk; lia |].
  subst i.
  destruct (nth_error t (List.length P1)) as [x |] eqn:Hx;
    [| apply nth_error_None in Hx; simpl in Ht; lia].
  rewrite (skipn_nth_error_cons _ _ _ Hx).
  cbn [posterior_loop]. unfold mbind, mlift, py_index, mret, mmodify.
  rewrite Hx.
  destruct k as [| k].
  - rewrite Nat.add_0_r in Hneg.
    specialize (Hneg (p, v) x eq_refl Hx). simpl in Hneg.
    destruct (Req_dec_T (prior p x) 0) as [E | _]; [lra |].
    unfold set_value; simpl. rewrite set_nth_value_app.
    unfold math_log. destruct (Rlt_dec 0 (prior p x)) as [C | _]; [lra |].
    reflexivity.
  - assert (Hp : (0 < prior p x)%R).
    { apply (Hpos 0 (p, v) x); [lia | reflexivity | now rewrite Nat.add_0_r]. }
    destruct (Req_dec_T (prior p x) 0) as [E | _]; [lra |].
    unfold set_value; simpl. rewrite set_nth_value_app.
    unfold math_log. destruct (Rlt_dec 0 (prior p x)) as [_ | C]; [| lra].
    replace (P1 ++ (p, x) :: ps) with ((P1 ++ [(p, x)]) ++ ps)
      by (rewrite <- app_assoc; reflexivity).
    rewrite IH with (i := S (List.length P1)) (k := k).
    + rewrite <- app_assoc. reflexivity.
    + rewrite length_app; simpl; lia.
    + simpl in Hk; lia.
    + simpl in Ht; lia.
    + intros pv y H1 H2. apply (Hneg pv y); [exact H1 |].
      replace (List.length P1 + S k) with (S (List.length P1) + k) by lia.
      exact H2.
    + intros j pv y Hj H1 H2. apply (Hpos (S j) pv y); [lia | exact H1 |].
      replace (List.length P1 + S j) with (S (List.length P1) + j) by lia.
      exact H2.
Qed.

Section LogPrior.

Variables Dataset Flux Edges : Type.
Variable gl : Dataset -> option Flux -> list R -> res fl.
Variable ifl : Dataset -> list R -> res Flux.

(** [get_posterior] is the length assertion followed by [_log_prior] and,
    unless the log-prior is [-inf], by [_log_like]: its result is the
    log-likelihood plus the log-prior, with the same parameter
    assignments and the same exceptions. *)
Theorem get_posterior_is_log_prior_then_log_like (s : Sampler Dataset Edges)
    (t : list R) (st : State) :
  get_posterior gl ifl s t st =
    if negb (Nat.eqb (List.length (free_parameters st)) (List.length t)) then
      (st, Raise (AssertionError free_params_mismatch_msg))
    else
      (lp <- _log_prior t ;;
       match lp with
       | NInf => mret NInf
       | _ => ll <- _log_like gl ifl s t ;; mret (fl_add ll lp)
       end) st.
Proof.
  unfold get_posterior, _log_prior, mbind at 1 2, mget. cbv beta.
  destruct (negb _); [reflexivity |].
  unfold mbind at 2 3. cbv beta. rewrite log_prior_loop_posterior_loop.
  destruct (posterior_loop (free_parameters st) t 0 0 st) as [st' [[p |] | e]];
    reflexivity.
Qed.

End LogPrior.

(** [_log_prior] does not check the length of the trial vector: entries
    beyond the number of free parameters are ignored. *)
Theorem log_prior_ignores_extra_values (t extra : list R) (st : State) :
  List.length t = List.length (free_parameters st) ->
  _log_prior (t ++ extra) st = _log_prior t st.
Proof.
  intros Hlen. unfold _log_prior, mbind, mget.
  apply log_prior_loop_app. lia.
Qed.

Lemma log_prior_ignores_extra_values_witness :
  List.length [2%R] = List.length (free_parameters (mkState [(par_c, 1%R)] [])) /\
  _log_prior ([2%R] ++ [7%R]) (mkState [(par_c, 1%R)] []) =
    _log_prior [2%R] (mkState [(par_c, 1%R)] []).
Proof.
  assert (H : List.length [2%R] = List.length (free_parameters (mkState [(par_c, 1%R)] [])))
    by reflexivity.
  split; [exact H | exact (log_prior_ignores_extra_values [2%R] [7%R] _ H)].
Defined.

Section NegativePrior.

Variables Dataset Flux Edges : Type.
Variable gl : Dataset -> option Flux -> list R -> res fl.
Variable ifl : Dataset -> list R -> res Flux.

(** A negative prior density is not rejected like a zero one: with a
    full-length trial vector whose first non-positive density, at index
    [k], is negative, [get_posterior] assigns the trial values up to and
    including index [k] and then raises the [ValueError] of [math.log]. *)
Theorem get_posterior_negative_prior (s : Sampler Dataset Edges) (st : State)
    (t : list R) (k : nat) :
  List.length (free_parameters st) = List.length t ->
  k < List.length t ->
  (forall pv x, nth_error (free_parameters st) k = Some pv ->
     nth_error t k = Some x -> (prior (fst pv) x < 0)%R) ->
  (forall j pv x, j < k -> nth_error (free_parameters st) j = Some pv ->
     nth_error t j = Some x -> (0 < prior (fst pv) x)%R) ->
  get_posterior gl ifl s t st =
    (mkState (combine (map fst (firstn (S k) (free_parameters st))) (firstn (S k) t)
              ++ skipn (S k) (free_parameters st)) (warnings st),
     Raise ValueError).
Proof.
  intros Hlen Hk Hneg Hpos.
  destruct st as [P w]; simpl in *.
  unfold get_posterior, mbind at 1, mget. cbv beta. cbn [free_parameters].
  apply Nat.eqb_eq in Hlen as Hlen'. rewrite Hlen'. cbn [negb].
  unfold mbind at 1.
  pose proof (posterior_loop_negative P [] w t 0 0 k eq_refl ltac:(lia) ltac:(simpl; lia)
                Hneg Hpos) as HL.
  cbn [app skipn] in HL. rewrite HL. reflexivity.
Qed.

End NegativePrior.

Lemma get_posterior_negative_prior_witness :
  List.length (free_parameters (mkState [(par_d, 1%R)] [])) = List.length [0%R] /\
  get_posterior flat_log_like unit_flux ex_sampler [0%R] (mkState [(par_d, 1%R)] []) =
    (mkState [(par_d, 0%R)] [], Raise ValueError).
Proof.
  assert (H1 : List.length (free_parameters (mkState [(par_d, 1%R)] [])) = List.length [0%R])
    by reflexivity.
  split; [exact H1 |].
  refine (get_posterior_negative_prior unit unit unit flat_log_like unit_flux ex_sampler
            (mkState [(par_d, 1%R)] []) [0%R] 0 H1 _ _ _).
  - simpl; lia.
  - intros pv x Hp Hx. simpl in Hp, Hx. injection Hp as <-. injection Hx as <-.
    simpl. lra.
  - intros j pv x Hj. lia.
Defined.

(** ** [_build_samples_dictionary] and the restore steps *)

Lemma dict_set_fresh {V} (k : string) (v : V) (d : list (string * V)) :
  ~ In k (map fst d) -> dict_set k v d = d ++ [(k, v)].
Proof.
  induction d as [| [k' v'] d IH]; intros Hn; [reflexivity |].
  simpl in *. destruct (String.eqb_spec k k') as [-> | _]; [tauto |].
  rewrite IH; tauto.
Qed.

Lemma build_samples_loop_fresh raw names :
  forall i acc,
    NoDup (map fst acc ++ names) ->
    i + List.length names <= nd_ncols raw ->
    build_samples_loop raw names i acc =
      (acc ++ combine names
         (map (fun j => map (fun row => nth j row 0%R) (nd_rows raw))
            (seq i (List.length names))), Ret tt).
Proof.
  induction names as [| n names IH]; intros i acc Hnd Hlen.
  - simpl. now rewrite app_nil_r.
  - simpl in Hlen. cbn [build_samples_loop]. unfold nd_column.
    destruct (Nat.ltb_spec i (nd_ncols raw)) as [_ | C]; [| lia].
    rewrite dict_set_fresh.
    + rewrite IH.
      * rewrite <- app_assoc. reflexivity.
      * rewrite map_app, <- app_assoc. exact Hnd.
      * lia.
    + apply NoDup_remove_2 in Hnd. intros Hin. apply Hnd, in_or_app. now left.
Qed.

Lemma build_samples_loop_short raw names :
  forall i acc,
    i <= nd_ncols raw ->
    nd_ncols raw < i + List.length names ->
    snd (build_samples_loop raw names i acc) = Raise IndexError.
Proof.
  induction names as [| n names IH]; intros i acc Hi Hlen; simpl in Hlen; [lia |].
  cbn [build_samples_loop]. unfold nd_column.
  destruct (Nat.ltb_spec i (nd_ncols raw)) as [Hlt | _]; [| reflexivity].
  apply IH; lia.
Qed.

Lemma py_lookup_combine {V} (names : list string) (vs : list V) :
  NoDup names -> List.length vs = List.length names ->
  forall j n, nth_error names j = Some n ->
    exists v, nth_error vs j = Some v /\ py_lookup n (combine names vs) = Ret v.
Proof.
  intros Hnd. revert vs.
  induction names as [| n0 names IH]; intros [| v0 vs] Hlen j n Hj;
    simpl in *; try discriminate; [destruct j; discriminate |].
  inversion Hnd as [| ? ? Hn0 Hnd']; subst.
  destruct j as [| j].
  - injection Hj as <-. exists v0. split; [reflexivity |].
    now rewrite String.eqb_refl.
  - destruct (IH Hnd' vs ltac:(lia) j n Hj) as (v & Hv & Hl).
    exists v. split; [exact Hv |].
    destruct (String.eqb_spec n n0) as [-> | _]; [| exact Hl].
    exfalso. apply Hn0. eapply nth_error_In. exact Hj.
Qed.

Lemma restore_loop_rows samples idx (row : list R) names :
  forall ps P1 w i,
    List.length P1 = i ->
    List.length names = List.length ps ->
    i + List.length ps <= List.length row ->
    (forall j n, nth_error names j = Some n ->
       rbind (py_lookup n samples) (fun column => py_index column idx)
       = Ret (nth (i + j) row 0%R)) ->
    restore_loop samples names idx i (mkState (P1 ++ ps) w) =
      (mkState (P1 ++ combine (map fst ps) (skipn i row)) w, Ret tt).
Proof.
  induction names as [| n names IH]; intros ps P1 w i HP1 Hlen Hrow Hcol.
  - destruct ps; [| discriminate]. simpl.
    destruct (skipn i row); reflexivity.
  - destruct ps as [| [p v] ps]; [discriminate |]. simpl in Hlen, Hrow.
    pose proof (Hcol 0 n eq_refl) as H0. rewrite Nat.add_0_r in H0.
    cbn [restore_loop]. unfold mbind, mlift, mmodify.
    destruct (py_lookup n samples) as [column | e]; [| discriminate].
    simpl in H0. rewrite H0.
    unfold set_value; simpl. subst i. rewrite set_nth_value_app.
    replace (P1 ++ (p, nth (List.length P1) row 0%R) :: ps)
      with ((P1 ++ [(p, nth (List.length P1) row 0%R)]) ++ ps)
      by (rewrite <- app_assoc; reflexivity).
    rewrite IH.
    + rewrite (skipn_nth_error_cons row (List.length P1) (nth (List.length P1) row 0%R))
        by (apply nth_error_nth'; lia).
      rewrite <- app_assoc. reflexivity.
    + rewrite length_app; simpl; lia.
    + lia.
    + lia.
    + intros j m Hj.
      replace (S (List.length P1) + j) with (List.length P1 + S j) by lia.
      apply Hcol. exact Hj.
Qed.

Lemma map_fst_combine {X Y} (l1 : list X) (l2 : list Y) :
  List.length l1 <= List.length l2 -> map fst (combine l1 l2) = l1.
Proof.
  revert l2; induction l1 as [| x l1 IH]; intros [| y l2] H; simpl in *;
    [reflexivity | reflexivity | lia |].
  f_equal. apply IH. lia.
Qed.

Lemma build_samples_dictionary_eq raw st :
  NoDup (map (fun pv => name (fst pv)) (free_parameters st)) ->
  List.length (free_parameters st) <= nd_ncols raw ->
  _build_samples_dictionary raw st =
    (combine (map (fun pv => name (fst pv)) (free_parameters st))
       (map (fun j => map (fun row => nth j row 0%R) (nd_rows raw))
          (seq 0 (List.length (free_parameters st)))), Ret tt).
Proof.
  intros Hnd Hlen. unfold _build_samples_dictionary.
  rewrite build_samples_loop_fresh; simpl.
  - now rewrite length_map.
  - exact Hnd.
  - rewrite length_map. lia.
Qed.

Lemma build_samples_dictionary_lookup raw st :
  NoDup (map (fun pv => name (fst pv)) (free_parameters st)) ->
  List.length (free_parameters st) <= nd_ncols raw ->
  forall j n, nth_error (map (fun pv => name (fst pv)) (free_parameters st)) j = Some n ->
    j < nd_ncols raw /\
    py_lookup n (fst (_build_samples_dictionary raw st)) =
      Ret (map (fun row => nth j row 0%R) (nd_rows raw)).
Proof.
  intros Hnd Hlen j n Hj.
  rewrite build_samples_dictionary_eq by assumption. simpl.
  assert (Hjl : j < List.length (free_parameters st)).
  { assert (Hs : nth_error (map (fun pv => name (fst pv)) (free_parameters st)) j <> None)
      by congruence.
    apply nth_error_Some in Hs. rewrite length_map in Hs. exact Hs. }
  split; [lia |].
  assert (Hvl : List.length (map (fun j => map (fun row => nth j row 0%R) (nd_rows raw))
                 (seq 0 (List.length (free_parameters st))))
                = List.length (map (fun pv => name (fst pv)) (free_parameters st)))
    by (now rewrite !length_map, length_seq).
  destruct (py_lookup_combine _ _ Hnd Hvl j n Hj) as (v & Hv & Hl).
  rewrite Hl. rewrite nth_error_map, nth_error_seq in Hv.
  destruct (Nat.ltb_spec j (List.length (free_parameters st))); [| lia].
  simpl in Hv. now injection Hv as <-.
Qed.

Lemma nd_wf_row raw idx :
  nd_wf raw -> idx < List.length (nd_rows raw) ->
  List.length (nth idx (nd_rows raw) []) = nd_ncols raw.
Proof.
  intros Hwf Hidx. unfold nd_wf in Hwf. rewrite Forall_forall in Hwf.
  apply Hwf, nth_In. exact Hidx.
Qed.

Section RestoreAfterBuild.

Variable A : Type.
Variable leb : A -> A -> bool.

Lemma restore_fit_after_build_eq (use_median_fit : bool) (raw : NdArray2)
    (log_probability_values : list A) (idx : nat) (st : State) :
  nd_wf raw ->
  NoDup (map (fun pv => name (fst pv)) (free_parameters st)) ->
  List.length (free_parameters st) <= nd_ncols raw ->
  fit_index leb use_median_fit log_probability_values = Ret idx ->
  idx < List.length (nd_rows raw) ->
  restore_fit leb use_median_fit (fst (_build_samples_dictionary raw st))
    log_probability_values st =
    (mkState (combine (map fst (free_parameters st)) (nth idx (nd_rows raw) []))
       (warnings st), Ret tt).
Proof.
  intros Hwf Hnd Hlen Hidx Hrow.
  assert (E : restore_fit leb use_median_fit (fst (_build_samples_dictionary raw st))
                log_probability_values st =
              restore_at (fst (_build_samples_dictionary raw st)) (Ret idx) st).
  { unfold restore_fit, fit_index in *.
    destruct use_median_fit;
      [unfold restore_median_fit | unfold restore_MAP_fit]; now rewrite Hidx. }
  rewrite E. unfold restore_at, mbind, mlift, mget. cbv beta iota.
  pose proof (nd_wf_row raw idx Hwf Hrow) as Hrl.
  destruct st as [P w]; simpl in *.
  pose proof (restore_loop_rows (fst (_build_samples_dictionary raw (mkState P w))) idx
                (nth idx (nd_rows raw) []) (map (fun pv => name (fst pv)) P) P [] w 0
                eq_refl ltac:(now rewrite length_map) ltac:(lia)) as HL.
  simpl in HL. apply HL.
  intros j n Hj.
  destruct (build_samples_dictionary_lookup raw (mkState P w) Hnd Hlen j n Hj)
    as [Hjc Hl].
  simpl in Hl. rewrite Hl. simpl. unfold py_index.
  rewrite nth_error_map.
  rewrite (nth_error_nth' (nd_rows raw) [] Hrow). reflexivity.
Qed.

End RestoreAfterBuild.

(** [_build_samples_dictionary] maps the name of the [j]-th free parameter
    to the column [raw_samples[:, j]], in the order of the free parameters,
    when the parameter names are distinct and the array has a column for
    every free parameter. *)
Theorem build_samples_dictionary_columns (raw : NdArray2) (st : State) :
  NoDup (map (fun pv => name (fst pv)) (free_parameters st)) ->
  List.length (free_parameters st) <= nd_ncols raw ->
  snd (_build_samples_dictionary raw st) = Ret tt /\
  map fst (fst (_build_samples_dictionary raw st)) =
    map (fun pv => name (fst pv)) (free_parameters st) /\
  (forall j pv, nth_error (free_parameters st) j = Some pv ->
     exists column, nd_column raw j = Ret column /\
       py_lookup (name (fst pv)) (fst (_build_samples_dictionary raw st)) = Ret column).
Proof.
  intros Hnd Hlen. split; [| split].
  - now rewrite build_samples_dictionary_eq.
  - rewrite build_samples_dictionary_eq by assumption. simpl.
    apply map_fst_combine. now rewrite !length_map, length_seq.
  - intros j pv Hj.
    assert (Hn : nth_error (map (fun pv => name (fst pv)) (free_parameters st)) j
                 = Some (name (fst pv))) by (now rewrite nth_error_map, Hj).
    destruct (build_samples_dictionary_lookup raw st Hnd Hlen j _ Hn) as [Hjc Hl].
    exists (map (fun row => nth j row 0%R) (nd_rows raw)). split; [| exact Hl].
    unfold nd_column. destruct (Nat.ltb_spec j (nd_ncols raw)); [reflexivity | lia].
Qed.

Lemma build_samples_dictionary_columns_witness :
  NoDup (map (fun pv => name (fst pv)) (free_parameters ex_state)) /\
  py_lookup "b"%string (fst (_build_samples_dictionary ex_raw ex_state)) = Ret [2; 4; 6]%R.
Proof.
  assert (Hnd : NoDup (map (fun pv => name (fst pv)) (free_parameters ex_state))).
  { simpl. constructor; [simpl; intros [H | []]; discriminate | constructor; [easy | constructor]]. }
  split; [exact Hnd |].
  destruct (build_samples_dictionary_columns ex_raw ex_state Hnd ltac:(simpl; lia))
    as (_ & _ & Hcol).
  destruct (Hcol 1 (par_b, 5%R) eq_refl) as (column & Hc & Hl).
  simpl in Hc. injection Hc as <-. exact Hl.
Defined.

(** With fewer columns in [raw_samples] than free parameters,
    [_build_samples_dictionary] raises [IndexError]. *)
Theorem build_samples_dictionary_too_few_columns (raw : NdArray2) (st : State) :
  nd_ncols raw < List.length (free_parameters st) ->
  snd (_build_samples_dictionary raw st) = Raise IndexError.
Proof.
  intros Hlt. unfold _build_samples_dictionary.
  apply build_samples_loop_short; rewrite ?length_map; lia.
Qed.

Lemma build_samples_dictionary_too_few_columns_witness :
  nd_ncols (mkNdArray2 [[1]; [3]]%R 1) < List.length (free_parameters ex_state) /\
  snd (_build_samples_dictionary (mkNdArray2 [[1]; [3]]%R 1) ex_state) = Raise IndexError.
Proof.
  assert (H : nd_ncols (mkNdArray2 [[1]; [3]]%R 1) < List.length (free_parameters ex_state))
    by (simpl; lia).
  split; [exact H | exact (build_samples_dictionary_too_few_columns _ _ H)].
Defined.

Section BuildResultsPoint.

Variable A : Type.
Variable leb : A -> A -> bool.

(** Restoring from the samples dictionary built from [raw_samples] sets
    the free parameters to the row [raw_samples[idx, :]] of the point
    estimate [idx] (median or MAP, by [use_median_fit]); nothing else of
    the state changes. *)
Theorem restore_fit_after_build_samples (use_median_fit : bool) (raw : NdArray2)
    (log_probability_values : list A) (idx : nat) (st : State) :
  nd_wf raw ->
  NoDup (map (fun pv => name (fst pv)) (free_parameters st)) ->
  List.length (free_parameters st) <= nd_ncols raw ->
  fit_index leb use_median_fit log_probability_values = Ret idx ->
  idx < List.length (nd_rows raw) ->
  restore_fit leb use_median_fit (fst (_build_samples_dictionary raw st))
    log_probability_values st =
    (mkState (combine (map fst (free_parameters st)) (nth idx (nd_rows raw) []))
       (warnings st), Ret tt).
Proof.
  intros Hwf Hnd Hlen Hidx Hrow.
  now apply restore_fit_after_build_eq.
Qed.

(** In [_build_results], assigning [approximate_MAP_point =
    raw_samples[idx, :]] to the free parameters after the restore step
    changes nothing: the state is the one the restore step left, and the
    point is that row. *)
Theorem approximate_MAP_point_after_restore (use_median_fit : bool) (raw : NdArray2)
    (log_probability_values : list A) (idx : nat) (st : State) :
  nd_wf raw ->
  NoDup (map (fun pv => name (fst pv)) (free_parameters st)) ->
  List.length (free_parameters st) <= nd_ncols raw ->
  fit_index leb use_median_fit log_probability_values = Ret idx ->
  idx < List.length (nd_rows raw) ->
  approximate_MAP_point leb use_median_fit raw (fst (_build_samples_dictionary raw st))
    log_probability_values st =
    (fst (restore_fit leb use_median_fit (fst (_build_samples_dictionary raw st))
            log_probability_values st),
     Ret (nth idx (nd_rows raw) [])).
Proof.
  intros Hwf Hnd Hlen Hidx Hrow.
  pose proof (nd_wf_row raw idx Hwf Hrow) as Hrl.
  unfold approximate_MAP_point, mbind at 1.
  rewrite (restore_fit_after_build_eq A leb use_median_fit raw log_probability_values idx st
             Hwf Hnd Hlen Hidx Hrow).
  cbn [fst].
  unfold mbind, mlift, mget, mret. rewrite Hidx.
  unfold nd_row, py_index. rewrite (nth_error_nth' (nd_rows raw) [] Hrow).
  cbv beta iota. cbn [free_parameters warnings].
  pose proof (assign_loop_all (combine (map fst (free_parameters st)) (nth idx (nd_rows raw) []))
                [] (warnings st) (nth idx (nd_rows raw) []) 0 eq_refl) as HA.
  rewrite length_combine, length_map in HA.
  specialize (HA ltac:(lia)). simpl in HA. rewrite HA.
  rewrite map_fst_combine by (rewrite length_map; lia).
  reflexivity.
Qed.

End BuildResultsPoint.

Lemma restore_fit_after_build_samples_witness :
  nd_wf ex_raw /\ fit_index Z.leb false ex_log_probability = Ret 1 /\
  restore_fit Z.leb false (fst (_build_samples_dictionary ex_raw ex_state))
    ex_log_probability ex_state = (mkState [(par_a, 3%R); (par_b, 4%R)] [], Ret tt).
Proof.
  assert (Hwf : nd_wf ex_raw) by (repeat constructor).
  assert (Hnd : NoDup (map (fun pv => name (fst pv)) (free_parameters ex_state))).
  { simpl. constructor; [simpl; intros [H | []]; discriminate | constructor; [easy | constructor]]. }
  assert (Hidx : fit_index Z.leb false ex_log_probability = Ret 1) by reflexivity.
  split; [exact Hwf |]. split; [exact Hidx |].
  exact (restore_fit_after_build_samples Z Z.leb false ex_raw ex_log_probability 1 ex_state
           Hwf Hnd ltac:(simpl; lia) Hidx ltac:(simpl; lia)).
Defined.

Lemma approximate_MAP_point_after_restore_witness :
  nd_wf ex_raw /\ fit_index Z.leb false ex_log_probability = Ret 1 /\
  approximate_MAP_point Z.leb false ex_raw (fst (_build_samples_dictionary ex_raw ex_state))
    ex_log_probability ex_state =
    (fst (restore_fit Z.leb false (fst (_build_samples_dictionary ex_raw ex_state))
            ex_log_probability ex_state), Ret [3; 4]%R).
Proof.
  assert (Hwf : nd_wf ex_raw) by (repeat constructor).
  assert (Hnd : NoDup (map (fun pv => name (fst pv)) (free_parameters ex_state))).
  { simpl. constructor; [simpl; intros [H | []]; discriminate | constructor; [easy | constructor]]. }
  assert (Hidx : fit_index Z.leb false ex_log_probability = Ret 1) by reflexivity.
  split; [exact Hwf |]. split; [exact Hidx |].
  exact (approximate_MAP_point_after_restore Z Z.leb false ex_raw ex_log_probability 1 ex_state
           Hwf Hnd ltac:(simpl; lia) Hidx ltac:(simpl; lia)).
Defined.

(** ** The per-dataset log-posteriors of [_build_results] *)

Section LogPosteriors.

Variables Dataset Flux : Type.
Variable gl : Dataset -> option Flux -> list R -> res fl.
Variable dataset_name : Dataset -> string.
Variable get_number_of_data_points : Dataset -> Z.

Lemma log_posterior_loop_finite (ll : Dataset -> R) (p : R) (st : State) ds :
  forall acc n tot,
    (forall k d, In (k, d) ds -> gl d None (values st) = Ret (Fin (ll d))) ->
    NoDup (map fst acc ++ map (fun kd => dataset_name (snd kd)) ds) ->
    log_posterior_loop gl dataset_name get_number_of_data_points ds (Fin p) acc n (Fin tot) st =
      (st, Ret (acc ++ map (fun kd => (dataset_name (snd kd), Fin (ll (snd kd) + p)%R)) ds,
                (n + fold_right (fun kd m => get_number_of_data_points (snd kd) + m) 0 ds)%Z,
                Fin (tot + fold_right (fun kd a => ll (snd kd) + a)%R 0%R ds
                     + INR (List.length ds) * p)%R)).
Proof.
  induction ds as [| [k d] ds IH]; intros acc n tot Hll Hnd.
  - simpl. rewrite app_nil_r, Z.add_0_r. unfold mret. rewrite Rmult_0_l, !Rplus_0_r. reflexivity.
  - cbn [log_posterior_loop]. unfold dataset_get_log_like, mbind, mget, mlift.
    rewrite (Hll k d (or_introl eq_refl)).
    simpl in Hnd.
    rewrite dict_set_fresh.
    + cbn [fl_add]. rewrite IH.
      * cbn [fold_right List.length map]. rewrite <- app_assoc. rewrite S_INR.
        cbn [app snd].
        f_equal. f_equal. f_equal; [f_equal; lia | f_equal; lra].
      * intros k' d' Hin. apply (Hll k' d'). now right.
      * rewrite map_app, <- app_assoc. exact Hnd.
    + apply NoDup_remove_2 in Hnd. intros Hin. apply Hnd, in_or_app. now left.
Qed.

(** When every dataset's log-likelihood is finite and the log-prior at the
    point estimate is finite, the loop of [_build_results] leaves the
    parameters alone and gives each dataset the log-posterior
    [log_like + log_prior]; the total log-posterior is the sum of the
    log-likelihoods plus the log-prior counted once per dataset, and the
    total number of data points is the sum over the datasets. *)
Theorem log_posteriors_total (ds : list (string * Dataset)) (ll : Dataset -> R)
    (log_prior : R) (st : State) :
  (forall k d, In (k, d) ds -> gl d None (values st) = Ret (Fin (ll d))) ->
  NoDup (map (fun kd => dataset_name (snd kd)) ds) ->
  log_posterior_loop gl dataset_name get_number_of_data_points ds (Fin log_prior) [] 0%Z
    (Fin 0%R) st =
    (st, Ret (map (fun kd => (dataset_name (snd kd), Fin (ll (snd kd) + log_prior)%R)) ds,
              fold_right (fun kd m => get_number_of_data_points (snd kd) + m)%Z 0%Z ds,
              Fin (fold_right (fun kd a => ll (snd kd) + a)%R 0%R ds
                   + INR (List.length ds) * log_prior)%R)).
Proof.
  intros Hll Hnd.
  rewrite (log_posterior_loop_finite ll log_prior st ds [] 0%Z 0 Hll Hnd).
  rewrite Z.add_0_l, Rplus_0_l. reflexivity.
Qed.

End LogPosteriors.

Lemma log_posteriors_total_witness :
  (forall k d, In (k, d) det_list -> det_log_like d None (values ex_state) = Ret (Fin 5%R)) /\
  log_posterior_loop det_log_like (fun d => match d with 1 => "n1" | 2 => "n2" | _ => "lle" end%string)
    (fun _ => 10%Z) det_list (Fin (-1)%R) [] 0%Z (Fin 0%R) ex_state =
    (ex_state, Ret ([("n1"%string, Fin (5 + -1)%R); ("n2"%string, Fin (5 + -1)%R);
                     ("lle"%string, Fin (5 + -1)%R)],
                    30%Z, Fin (5 + (5 + (5 + 0)) + INR 3 * -1)%R)).
Proof.
  assert (Hll : forall k d, In (k, d) det_list -> det_log_like d None (values ex_state) = Ret (Fin 5%R))
    by reflexivity.
  split; [exact Hll |].
  exact (log_posteriors_total nat R det_log_like
           (fun d => match d with 1 => "n1" | 2 => "n2" | _ => "lle" end%string)
           (fun _ => 10%Z) det_list (fun _ => 5%R) (-1)%R ex_state Hll
           ltac:(simpl; repeat constructor; simpl; intuition discriminate)).
Defined.

(** ** [argmax] and the restore steps on bad input *)

Lemma nth_error_some_lt {X} (l : list X) n x :
  nth_error l n = Some x -> n < List.length l.
Proof. intros H. apply nth_error_Some. congruence. Qed.

Section Argmax.

Variable A : Type.
Variable leb : A -> A -> bool.
Hypothesis leb_total : forall x y, leb x y = true \/ leb y x = true.
Hypothesis leb_trans : forall x y z, leb x y = true -> leb y z = true -> leb x z = true.

Lemma argmax_from_spec (rest : list A) :
  forall pre best ibest,
    nth_error pre ibest = Some best ->
    (forall y, In y pre -> leb y best = true) ->
    (forall j y, j < ibest -> nth_error pre j = Some y -> leb best y = false) ->
    let r := argmax_from leb rest best ibest (List.length pre) in
    exists x, nth_error (pre ++ rest) r = Some x /\
      (forall y, In y (pre ++ rest) -> leb y x = true) /\
      (forall j y, j < r -> nth_error (pre ++ rest) j = Some y -> leb x y = false).
Proof.
  induction rest as [| x rest IH]; intros pre best ibest Hb Hle Hlt; cbn zeta.
  - simpl. rewrite app_nil_r. exists best. auto.
  - cbn [argmax_from]. unfold flt.
    replace (pre ++ x :: rest) with ((pre ++ [x]) ++ rest)
      by (rewrite <- app_assoc; reflexivity).
    assert (Hpre : List.length pre < List.length (pre ++ [x]))
      by (rewrite length_app; simpl; lia).
    destruct (leb x best) eqn:Exb; cbn [negb].
    + (* [x] is not larger: keep [best] *)
      replace (S (List.length pre)) with (List.length (pre ++ [x]))
        by (rewrite length_app; simpl; lia).
      apply IH.
      * rewrite nth_error_app1; [exact Hb |].
        apply nth_error_Some. congruence.
      * intros y Hy. apply in_app_or in Hy as [Hy | [<- | []]]; auto.
      * intros j y Hj Hy. apply (Hlt j y Hj).
        assert (j < List.length pre) by (apply nth_error_some_lt in Hb; lia).
        rewrite nth_error_app1 in Hy by lia. exact Hy.
    + (* [x] is larger than every earlier element *)
      assert (Hbx : leb best x = true) by (destruct (leb_total best x); congruence).
      replace (S (List.length pre)) with (List.length (pre ++ [x]))
        by (rewrite length_app; simpl; lia).
      apply IH.
      * rewrite nth_error_app2 by lia. now rewrite Nat.sub_diag.
      * intros y Hy. apply in_app_or in Hy as [Hy | [<- | []]].
        -- apply (leb_trans _ best); auto.
        -- destruct (leb_total x x); auto.
      * intros j y Hj Hy. rewrite nth_error_app1 in Hy by lia.
        destruct (leb x y) eqn:Exy; [| reflexivity].
        exfalso. assert (Hyb : leb y best = true) by (apply Hle; eapply nth_error_In; eauto).
        rewrite (leb_trans _ _ _ Exy Hyb) in Exb. discriminate.
Qed.

(** On a non-empty vector, [argmax] (numpy's [a.argmax()]) returns the
    first index of a maximum: its element is at least every element, and
    every element before it is strictly smaller. *)
Theorem argmax_first_maximum (a : list A) :
  a <> [] ->
  exists i x, argmax leb a = Ret i /\ nth_error a i = Some x /\
    (forall y, In y a -> leb y x = true) /\
    (forall j y, j < i -> nth_error a j = Some y -> leb x y = false).
Proof.
  destruct a as [| x0 rest]; [congruence |]. intros _.
  destruct (argmax_from_spec rest [x0] x0 0 eq_refl) as (x & Hx & Hle & Hlt).
  - intros y [<- | []]. destruct (leb_total x0 x0); auto.
  - intros j y Hj. lia.
  - exists (argmax_from leb rest x0 0 1), x. simpl in Hx, Hle, Hlt.
    repeat split; auto.
Qed.

End Argmax.

Lemma argmax_first_maximum_witness :
  (forall x y, Z.leb x y = true \/ Z.leb y x = true) /\
  (forall x y z, Z.leb x y = true -> Z.leb y z = true -> Z.leb x z = true) /\
  exists i x, argmax Z.leb [1; 7; 3; 7]%Z = Ret i /\ nth_error [1; 7; 3; 7]%Z i = Some x /\
    (forall y, In y [1; 7; 3; 7]%Z -> Z.leb y x = true).
Proof.
  assert (Htot : forall x y, Z.leb x y = true \/ Z.leb y x = true).
  { intros x y. destruct (Z.le_ge_cases x y) as [H | H];
      [left; now apply Z.leb_le | right; apply Z.leb_le; lia]. }
  assert (Htr : forall x y z, Z.leb x y = true -> Z.leb y z = true -> Z.leb x z = true).
  { intros x y z H1 H2. apply Z.leb_le in H1, H2. apply Z.leb_le. lia. }
  split; [exact Htot |]. split; [exact Htr |].
  destruct (argmax_first_maximum Z Z.leb Htot Htr [1; 7; 3; 7]%Z ltac:(discriminate))
    as (i & x & H1 & H2 & H3 & _).
  exists i, x. split; [exact H1 |]. split; [exact H2 | exact H3].
Defined.


Lemma restore_loop_missing samples idx names :
  forall ps P1 w i k vals nk,
    List.length P1 = i ->
    List.length names = List.length ps ->
    List.length vals = k ->
    (forall j n, j < k -> nth_error names j = Some n ->
       rbind (py_lookup n samples) (fun column => py_index column idx) = Ret (nth j vals 0%R)) ->
    nth_error names k = Some nk ->
    py_lookup nk samples = Raise KeyError ->
    restore_loop samples names idx i (mkState (P1 ++ ps) w) =
      (mkState (P1 ++ combine (map fst (firstn k ps)) vals ++ skipn k ps) w, Raise KeyError).
Proof.
  induction names as [| n names IH]; intros ps P1 w i k vals nk HP1 Hlen Hvals Hcol Hk Hmiss;
    [destruct k; discriminate |].
  destruct ps as [| [p v] ps]; [discriminate |]. simpl in Hlen.
  destruct k as [| k].
  - destruct vals; [| discriminate]. simpl in Hk. injection Hk as <-.
    cbn [restore_loop]. unfold mbind, mlift. rewrite Hmiss. reflexivity.
  - destruct vals as [| x vals]; [discriminate |]. simpl in Hvals.
    pose proof (Hcol 0 n ltac:(lia) eq_refl) as H0. simpl in H0.
    cbn [restore_loop]. unfold mbind, mlift, mmodify.
    destruct (py_lookup n samples) as [column | e]; [| discriminate].
    simpl in H0. rewrite H0.
    unfold set_value; simpl. subst i. rewrite set_nth_value_app.
    replace (P1 ++ (p, x) :: ps) with ((P1 ++ [(p, x)]) ++ ps)
      by (rewrite <- app_assoc; reflexivity).
    rewrite (IH ps (P1 ++ [(p, x)]) w (S (List.length P1)) k vals nk).
    + rewrite <- app_assoc. reflexivity.
    + rewrite length_app; simpl; lia.
    + lia.
    + lia.
    + intros j m Hj Hm. apply (Hcol (S j) m); [lia | exact Hm].
    + exact Hk.
    + exact Hmiss.
Qed.

Section RestoreMissing.

Variable A : Type.
Variable leb : A -> A -> bool.

(** The restore step is not atomic: if the samples dictionary has no
    entry for the [k]-th free parameter, the parameters before it have
    already been set to their samples at the point-estimate index when
    [KeyError] is raised, and the others keep their values. *)
Theorem restore_fit_missing_key (use_median_fit : bool) (samples : list (string * list R))
    (log_probability_values : list A) (idx k : nat) (vals : list R) (st : State) :
  fit_index leb use_median_fit log_probability_values = Ret idx ->
  k < List.length (free_parameters st) ->
  List.length vals = k ->
  (forall j pv, j < k -> nth_error (free_parameters st) j = Some pv ->
     rbind (py_lookup (name (fst pv)) samples) (fun column => py_index column idx)
     = Ret (nth j vals 0%R)) ->
  (forall pv, nth_error (free_parameters st) k = Some pv ->
     py_lookup (name (fst pv)) samples = Raise KeyError) ->
  restore_fit leb use_median_fit samples log_probability_values st =
    (mkState (combine (map fst (firstn k (free_parameters st))) vals
              ++ skipn k (free_parameters st)) (warnings st),
     Raise KeyError).
Proof.
  intros Hidx Hk Hvals Hcol Hmiss.
  assert (E : restore_fit leb use_median_fit samples log_probability_values st =
              restore_at samples (Ret idx) st).
  { unfold restore_fit, fit_index in *.
    destruct use_median_fit;
      [unfold restore_median_fit | unfold restore_MAP_fit]; now rewrite Hidx. }
  rewrite E. unfold restore_at, mbind, mlift, mget. cbv beta iota.
  destruct st as [P w]; simpl in *.
  destruct (nth_error P k) as [pk |] eqn:Epk;
    [| apply nth_error_None in Epk; lia].
  apply (restore_loop_missing samples idx (map (fun pv => name (fst pv)) P) P [] w 0 k vals
           (name (fst pk)) eq_refl ltac:(now rewrite length_map) Hvals).
  - intros j n Hj Hn. rewrite nth_error_map in Hn.
    destruct (nth_error P j) as [pv |] eqn:Epv; [| discriminate].
    simpl in Hn. injection Hn as <-. now apply Hcol.
  - now rewrite nth_error_map, Epk.
  - now apply Hmiss.
Qed.

End RestoreMissing.

Lemma restore_fit_missing_key_witness :
  fit_index Z.leb false ex_log_probability = Ret 1 /\
  restore_fit Z.leb false [("a"%string, [1; 3; 5]%R)] ex_log_probability ex_state =
    (mkState [(par_a, 3%R); (par_b, 5%R)] [], Raise KeyError).
Proof.
  assert (Hidx : fit_index Z.leb false ex_log_probability = Ret 1) by reflexivity.
  split; [exact Hidx |].
  refine (restore_fit_missing_key Z Z.leb false [("a"%string, [1; 3; 5]%R)]
            ex_log_probability 1 1 [3%R] ex_state Hidx _ eq_refl _ _).
  - simpl; lia.
  - intros j pv Hj Hpv. destruct j; [| lia]. simpl in Hpv. injection Hpv as <-.
    reflexivity.
  - intros pv Hpv. simpl in Hpv. injection Hpv as <-. reflexivity.
Defined.

(** ** The [prior] transforms of the unit-cube adapter *)

Lemma nth_error_list_set_eq {X} (xs : list X) i x :
  i < List.length xs -> nth_error (list_set xs i x) i = Some x.
Proof.
  revert i; induction xs as [| y xs IH]; intros [| i] H; simpl in *; try lia; auto.
  apply IH. lia.
Qed.

Lemma nth_error_list_set_neq {X} (xs : list X) i j x :
  j <> i -> nth_error (list_set xs i x) j = nth_error xs j.
Proof.
  revert i j; induction xs as [| y xs IH]; intros [| i] [| j] H; simpl; auto;
    try lia; apply IH; lia.
Qed.

Lemma transform_loop_ok ps :
  Forall (fun q => from_unit_cube q <> None) ps ->
  forall i params, i + List.length ps <= List.length params ->
    exists out, transform_loop ps i params = (out, None) /\
      List.length out = List.length params /\
      (forall j, j < i \/ i + List.length ps <= j -> nth_error out j = nth_error params j) /\
      (forall j p f, nth_error ps j = Some p -> from_unit_cube p = Some f ->
         nth_error out (i + j) = option_map f (nth_error params (i + j))).
Proof.
  intros Hall. induction Hall as [| p ps Hp Hps IH]; intros i params Hlen.
  - exists params. repeat split; auto.
    intros j q f Hq. destruct j; discriminate.
  - simpl in Hlen. cbn [transform_loop].
    destruct (from_unit_cube p) as [f |] eqn:Ef; [| congruence].
    destruct (nth_error params i) as [x |] eqn:Ex;
      [| apply nth_error_None in Ex; lia].
    destruct (IH (S i) (list_set params i (f x)) ltac:(rewrite list_set_length; lia))
      as (out & Ho & Hl & Hout & Htr).
    exists out. split; [exact Ho |]. split; [now rewrite Hl, list_set_length |].
    split.
    + intros j Hj. simpl in Hj. rewrite Hout by lia.
      apply nth_error_list_set_neq. lia.
    + intros [| j] q g Hq Hg.
      * simpl in Hq. injection Hq as <-. rewrite Ef in Hg. injection Hg as <-.
        rewrite Nat.add_0_r, Hout by lia.
        rewrite nth_error_list_set_eq by lia. now rewrite Ex.
      * simpl in Hq.
        replace (i + S j) with (S i + j) by lia.
        rewrite (Htr j q g Hq Hg).
        rewrite nth_error_list_set_neq by lia. reflexivity.
Qed.

Lemma transform_loop_short ps :
  Forall (fun q => from_unit_cube q <> None) ps ->
  forall i params, i <= List.length params -> List.length params < i + List.length ps ->
    snd (transform_loop ps i params) = Some IndexError.
Proof.
  intros Hall. induction Hall as [| p ps Hp Hps IH]; intros i params Hi Hlen;
    simpl in Hlen; [lia |].
  cbn [transform_loop].
  destruct (from_unit_cube p) as [f |] eqn:Ef; [| congruence].
  destruct (nth_error params i) as [x |] eqn:Ex; [| reflexivity].
  apply nth_error_some_lt in Ex.
  apply IH; rewrite list_set_length; lia.
Qed.

(** When every free parameter's prior has a unit-cube transform and the
    cube has an entry per parameter, both [prior] variants succeed with the
    same list: entry [i] of the cube mapped by the [i]-th parameter's
    [from_unit_cube], entries beyond the parameters left as they are. *)
Theorem unitcube_prior_transforms (ps : list FreeParameter) (cube : list R) :
  Forall (fun q => from_unit_cube q <> None) ps ->
  List.length ps <= List.length cube ->
  exists out, prior_copy ps cube = Ret out /\ prior_in_place ps cube = (out, Ret tt) /\
    List.length out = List.length cube /\
    (forall i p f, nth_error ps i = Some p -> from_unit_cube p = Some f ->
       nth_error out i = option_map f (nth_error cube i)) /\
    (forall i, List.length ps <= i -> nth_error out i = nth_error cube i).
Proof.
  intros Hall Hlen.
  destruct (transform_loop_ok ps Hall 0 cube ltac:(lia)) as (out & Ho & Hl & Hout & Htr).
  exists out. unfold prior_copy, prior_in_place. rewrite Ho.
  split; [reflexivity |]. split; [reflexivity |].
  split; [exact Hl |]. split; [exact Htr |].
  intros i Hi. apply Hout. lia.
Qed.

Lemma unitcube_prior_transforms_witness :
  Forall (fun q => from_unit_cube q <> None) [par_c; par_c] /\
  prior_copy [par_c; par_c] [(1/2)%R; (1/4)%R; 1%R] = Ret [(10 * (1/2))%R; (10 * (1/4))%R; 1%R].
Proof.
  assert (H : Forall (fun q => from_unit_cube q <> None) [par_c; par_c])
    by (repeat constructor; discriminate).
  split; [exact H |].
  destruct (unitcube_prior_transforms [par_c; par_c] [(1/2)%R; (1/4)%R; 1%R] H
              ltac:(simpl; lia)) as (out & Hc & _ & Hl & Htr & Hrest).
  rewrite Hc. f_equal.
  pose proof (Htr 0 par_c _ eq_refl eq_refl) as H0.
  pose proof (Htr 1 par_c _ eq_refl eq_refl) as H1.
  pose proof (Hrest 2 ltac:(simpl; lia)) as H2.
  simpl in Hl, H0, H1, H2.
  destruct out as [| a [| b [| c [| d out]]]]; simpl in Hl; try discriminate.
  simpl in H0, H1, H2. congruence.
Defined.

(** With a cube shorter than the list of free parameters (all of them
    with a unit-cube transform), both [prior] variants raise
    [IndexError]. *)
Theorem unitcube_prior_short_cube (ps : list FreeParameter) (cube : list R) :
  Forall (fun q => from_unit_cube q <> None) ps ->
  List.length cube < List.length ps ->
  prior_copy ps cube = Raise IndexError /\ snd (prior_in_place ps cube) = Raise IndexError.
Proof.
  intros Hall Hlen.
  pose proof (transform_loop_short ps Hall 0 cube ltac:(lia) ltac:(lia)) as H.
  unfold prior_copy, prior_in_place.
  destruct (transform_loop ps 0 cube) as [out [e |]]; simpl in H; [| discriminate].
  injection H as ->. split; reflexivity.
Qed.

Lemma unitcube_prior_short_cube_witness :
  Forall (fun q => from_unit_cube q <> None) [par_c; par_c] /\
  prior_copy [par_c; par_c] [(1/2)%R] = Raise IndexError.
Proof.
  assert (H : Forall (fun q => from_unit_cube q <> None) [par_c; par_c])
    by (repeat constructor; discriminate).
  split; [exact H |].
  exact (proj1 (unitcube_prior_short_cube [par_c; par_c] [(1/2)%R] H ltac:(simpl; lia))).
Defined.
